(** * react-vis force-directed graph: shallow embedding and verified properties

    The development embeds three source files of the repository:

    - [force-utils]  ([nodeId], [linkId], [runSimulation], [createSimulation]),
    - [force-directed-graph]  ([_getSimulation], [_mapItemsById],
      [_hydrateFromMap], [NODE_DEFAULTS], [LINK_DEFAULTS], [ForceDirectedGraph]),
    - [interactive-force-directed-graph]  (the [InteractiveForceDirectedGraph]
      component: its state, its handlers and [render]).

    JavaScript records are finite maps from property names to values, so that
    a missing key and a key holding [undefined] stay different, as
    [Object.assign] sees them.  Numbers are IEEE-754 binary64 floats.  Code
    that can raise returns a [result]; code that talks to the d3-force
    simulation threads a store of simulation objects and a log of the calls
    made on them.  A component is rendered as a function of its properties
    and state; a handler returns the next state ([setState] takes effect
    before the next event) together with the caller's callbacks it invoked. *)

From Stdlib Require Import Floats.
From stdpp Require Import gmap strings list fin_maps pretty.
From Equations Require Import Equations.

Set Default Proof Using "Type".

(** ** JavaScript values *)

#[warnings="-register-all"]
Inductive value : Type :=
| VUndefined
| VNull
| VBool (b : bool)
| VNum (x : float)
| VStr (s : string)
| VObj (o : gmap string value)
| VArr (l : list value).

(** A plain record: own enumerable string-keyed properties.  Properties
    inherited from [Object.prototype] are not part of a record; the program
    only reads data properties. *)
Abbreviation obj := (gmap string value).

#[global] Instance value_inhabited : Inhabited value := populate VUndefined.

(** ** Exceptions *)

Inductive exn : Type :=
| TypeError (msg : string)
| LibraryError (msg : string).

Inductive result (A : Type) : Type :=
| Ok (a : A)
| Throw (e : exn).
Arguments Ok {A} a.
Arguments Throw {A} e.

#[global] Instance result_ret : MRet result := fun A a => Ok a.
#[global] Instance result_bind : MBind result := fun A B f m =>
  match m with
  | Ok a => f a
  | Throw e => Throw e
  end.

(** A JavaScript function that cannot raise, used where a fallible callback
    is expected. *)
Definition total {A B : Type} (f : A -> B) : A -> result B := fun a => Ok (f a).

(** [Array.prototype.reduce] with a callback that may raise. *)
Fixpoint reduce {A B : Type} (f : B -> A -> result B) (items : list A) (init : B)
  : result B :=
  match items with
  | [] => Ok init
  | item :: rest => acc ← f init item; reduce f rest acc
  end.

(** [Array.prototype.map] with a callback that may raise. *)
Fixpoint map_array {A B : Type} (f : A -> result B) (items : list A)
  : result (list B) :=
  match items with
  | [] => Ok []
  | item :: rest => b ← f item; bs ← map_array f rest; Ok (b :: bs)
  end.

(** ** The host's number conversions

    [Number::toString] and [StringToNumber] belong to the JavaScript engine,
    not to this repository.  They are left abstract: every statement below
    holds whatever they compute. *)
Class Host : Type := {
  NumberToString : float -> string;
  StringToNumber : string -> float
}.

Section Language.
Context `{Host}.

(** [ToString].  A plain record prints as ["[object Object]"]; an array joins
    its elements with commas, [null] and [undefined] elements printing empty. *)
Fixpoint ToString (v : value) : string :=
  match v with
  | VUndefined => "undefined"
  | VNull => "null"
  | VBool true => "true"
  | VBool false => "false"
  | VNum x => NumberToString x
  | VStr s => s
  | VObj _ => "[object Object]"
  | VArr l =>
      String.concat ","
        (List.map (fun e => match e with
                            | VUndefined | VNull => ""
                            | _ => ToString e
                            end) l)
  end.

(** [ToNumber]. *)
Definition ToNumber (v : value) : float :=
  match v with
  | VUndefined => nan
  | VNull => 0%float
  | VBool true => 1%float
  | VBool false => 0%float
  | VNum x => x
  | VStr s => StringToNumber s
  | VObj _ => nan
  | VArr _ => StringToNumber (ToString v)
  end.

(** [ToBoolean]: the falsy values are [undefined], [null], [false], [0],
    [-0], [NaN] and the empty string. *)
Definition ToBoolean (v : value) : bool :=
  match v with
  | VUndefined | VNull => false
  | VBool b => b
  | VNum x => negb (PrimFloat.eqb x 0%float || PrimFloat.is_nan x)
  | VStr s => negb (String.eqb s "")
  | VObj _ | VArr _ => true
  end.

(** [a || b] and [a && b] on values already computed. *)
Definition js_or (a b : value) : value := if ToBoolean a then a else b.
Definition js_and (a b : value) : value := if ToBoolean a then b else a.

(** [a === b] on primitives.  Records and arrays are compared by reference
    in JavaScript; values carry no address here and node ids are strings
    ([PropTypes.string]), so two records never count as the same one. *)
Definition strict_eq (a b : value) : bool :=
  match a, b with
  | VUndefined, VUndefined => true
  | VNull, VNull => true
  | VBool x, VBool y => Bool.eqb x y
  | VNum x, VNum y => PrimFloat.eqb x y
  | VStr s, VStr t => String.eqb s t
  | _, _ => false
  end.

(** Arithmetic: [a / b], [a - b], [a + b] and [Math.sqrt]. *)
Definition js_div (a b : value) : value := VNum (ToNumber a / ToNumber b)%float.
Definition js_sub (a b : value) : value := VNum (ToNumber a - ToNumber b)%float.
Definition js_add (a b : value) : value :=
  match a, b with
  | (VStr _ | VObj _ | VArr _), _ | _, (VStr _ | VObj _ | VArr _) =>
      VStr (ToString a +:+ ToString b)
  | _, _ => VNum (ToNumber a + ToNumber b)%float
  end.
Definition Math_sqrt (a : value) : value := VNum (PrimFloat.sqrt (ToNumber a)).

(** The own enumerable properties [Object.assign] copies from a source:
    nothing for [undefined], [null], booleans and numbers, the indexed
    elements of an array, the indexed characters of a string. *)
Definition own_props (v : value) : obj :=
  match v with
  | VObj o => o
  | VArr l => list_to_map (imap (fun i e => (pretty i, e)) l)
  | VStr s =>
      list_to_map
        (imap (fun i c => (pretty i, VStr (String c EmptyString))) (String.list_ascii_of_string s))
  | _ => ∅
  end.

(** [Object.assign(target, ...sources)]: later sources win. *)
Definition Object_assign (target : obj) (sources : list value) : obj :=
  foldl (fun t s => own_props s ∪ t) target sources.

(** [o.k] on a record: [undefined] when the key is missing. *)
Definition prop (o : obj) (k : string) : value := default VUndefined (o !! k).

(** [v.k] on any value: reading a property of [undefined] or [null] raises.
    Only own data properties are read this way; of the inherited ones the
    program uses [map] alone, which is [array_map] below. *)
Definition Get (v : value) (k : string) : result value :=
  match v with
  | VUndefined => Throw (TypeError ("Cannot read property '" +:+ k +:+ "' of undefined"))
  | VNull => Throw (TypeError ("Cannot read property '" +:+ k +:+ "' of null"))
  | _ => Ok (prop (own_props v) k)
  end.

(** ** force-utils: identifiers *)

(** [nodeId(node)]: [node.id]. *)
Definition nodeId (node : obj) : value := prop node "id".

(** [linkId(link)]:
    [`${link.source.id || link.source}=>${link.target.id || link.target}`]. *)
Definition linkId (link : obj) : result value :=
  source_id ← Get (prop link "source") "id";
  let s := ToString (js_or source_id (prop link "source")) in
  target_id ← Get (prop link "target") "id";
  let t := ToString (js_or target_id (prop link "target")) in
  Ok (VStr (s +:+ "=>" +:+ t)).

(** ** force-directed-graph: identity maps and hydration *)

(** [_mapItemsById(items, _id, defaults)]: the reducer [assign_item] assigns
    [{[_id(item)]: Object.assign({}, defaults, item)}] onto the accumulator. *)
Definition assign_item (_id : obj -> result value) (defaults : obj) (o : obj) (item : obj)
  : result obj :=
  k ← _id item;
  Ok (Object_assign o
        [VObj {[ ToString k := VObj (Object_assign ∅ [VObj defaults; VObj item]) ]}]).

Definition _mapItemsById (items : list obj) (_id : obj -> result value) (defaults : obj)
  : result obj :=
  reduce (assign_item _id defaults) items ∅.

(** [_hydrateFromMap(item, _id, map)]:
    [Object.assign({}, item, map[_id(item)])]. *)
Definition _hydrateFromMap (item : obj) (_id : obj -> result value) (map : obj)
  : result obj :=
  k ← _id item;
  Ok (Object_assign ∅ [VObj item; prop map (ToString k)]).

Definition NODE_DEFAULTS : obj :=
  {[ "radius" := VNum 5%float;
     "opacity" := VNum 1%float;
     "color" := VStr "#333";
     "stroke" := VStr "#fff";
     "strokeWidth" := VNum 1.5%float;
     "showLabel" := VBool false ]}.

#[warnings="-inexact-float"]
Definition LINK_DEFAULTS : obj :=
  {[ "opacity" := VNum 0.6%float;
     "color" := VStr "#999" ]}.

End Language.

(** ** The d3-force collaborator

    The force-layout library is not part of the repository.  Its simulation
    object is an abstract state with one transformer per method the program
    calls; nothing is assumed about what the methods compute. *)
Class ForceLibrary : Type := {
  Sim : Type;
  (** [forceSimulation()] *)
  forceSimulation : Sim;
  (** [.force('link', forceLink().id(f))] *)
  force_link : (obj -> value) -> Sim -> Sim;
  (** [.force('charge', forceManyBody())] *)
  force_charge : Sim -> Sim;
  (** [.force('center', forceCenter(x, y))] *)
  force_center : value -> value -> Sim -> Sim;
  (** [simulation[name](v)] for one of the alpha factors *)
  set_factor : string -> value -> Sim -> Sim;
  (** [simulation.force('charge').strength(f)] *)
  charge_strength : (obj -> value) -> Sim -> Sim;
  (** [simulation.nodes(a)] *)
  set_nodes : list obj -> Sim -> Sim;
  (** [simulation.force('link').links(a)]; raises on an unknown endpoint *)
  set_links : list obj -> Sim -> result Sim;
  (** [simulation.nodes()] *)
  get_nodes : Sim -> list obj;
  (** [simulation.force('link').links()] *)
  get_links : Sim -> list obj;
  (** [simulation.restart()], [simulation.tick()], [simulation.stop()] *)
  restart : Sim -> Sim;
  tick : Sim -> Sim;
  stop : Sim -> Sim
}.

(** The lifecycle methods, as logged. *)
Inductive method : Type := Restart | Tick | Stop.

Section Program.
Context `{Host} `{ForceLibrary}.

(** A simulation is an object with identity: the program holds a reference
    into a store.  The world also records, in order, every lifecycle call
    made on a simulation. *)
Record world : Type := World {
  sims : gmap nat Sim;
  calls : list (nat * method)
}.

Definition M (A : Type) : Type := world -> result (A * world).

#[global] Instance M_ret : MRet M := fun A a w => Ok (a, w).
#[global] Instance M_bind : MBind M := fun A B f m w =>
  match m w with
  | Ok (a, w') => f a w'
  | Throw e => Throw e
  end.

Definition lift {A : Type} (r : result A) : M A := fun w =>
  match r with
  | Ok a => Ok (a, w)
  | Throw e => Throw e
  end.

(** [new]: a fresh reference holding [s]. *)
Definition alloc (s : Sim) : M nat := fun w =>
  let r := fresh (dom (sims w)) in
  Ok (r, World (<[r := s]> (sims w)) (calls w)).

(** The state behind a reference. *)
Definition deref (simulation : nat) : M Sim := fun w =>
  match sims w !! simulation with
  | Some s => Ok (s, w)
  | None => Throw (TypeError "not a simulation")
  end.

(** A method call that updates the simulation in place. *)
Definition update (simulation : nat) (f : Sim -> result Sim) : M unit := fun w =>
  match sims w !! simulation with
  | Some s =>
      match f s with
      | Ok s' => Ok (tt, World (<[simulation := s']> (sims w)) (calls w))
      | Throw e => Throw e
      end
  | None => Throw (TypeError "not a simulation")
  end.

Definition run_method (m : method) : Sim -> Sim :=
  match m with
  | Restart => restart
  | Tick => tick
  | Stop => stop
  end.

(** [simulation.restart()], [simulation.tick()], [simulation.stop()]:
    the call is logged and the simulation updated in place. *)
Definition invoke (simulation : nat) (m : method) : M unit := fun w =>
  match sims w !! simulation with
  | Some s =>
      Ok (tt, World (<[simulation := run_method m s]> (sims w))
                    (calls w ++ [(simulation, m)]))
  | None => Throw (TypeError "not a simulation")
  end.

(** ** force-utils: running a simulation *)

(** [while (i < steps) { simulation.tick(); i++; }] *)
Equations while_loop (simulation : nat) (steps i : nat) : M unit
  by wf (steps - i) lt :=
  while_loop simulation steps i with lt_dec i steps := {
    | left _ => _ ← invoke simulation Tick; while_loop simulation steps (S i)
    | right _ => mret tt }.
Next Obligation. lia. Qed.

(** [runSimulation(simulation, steps = 300)]; [None] is an omitted argument. *)
Definition runSimulation (simulation : nat) (steps : option nat) : M nat :=
  let steps := default 300 steps in
  _ ← invoke simulation Restart;
  _ ← while_loop simulation steps 0;
  _ ← invoke simulation Stop;
  mret simulation.

(** ** Component properties

    The properties a component receives.  [nodes], [links] and
    [defaultSelectedNode] have the shapes their [propTypes] declare;
    function-valued properties are kept apart from data; [attrs] holds every
    other own property ([width], [height], [showLabels], [labelAttr],
    [opacityFactor], the alpha factors, and whatever else the caller passes
    along, such as [data]).  [callbacks] names the interaction callbacks the
    caller supplied; what a callback does is the caller's business, so a call
    is recorded as an event. *)
Record LabelOffset : Type := {
  offset_x : obj -> value;
  offset_y : obj -> value
}.

Record Options : Type := {
  nodes : list obj;
  links : list obj;
  attrs : obj;
  defaultSelectedNode : option obj;
  chargeStrength : option (obj -> value);
  labelOffset : option LabelOffset;
  callbacks : gset string
}.

(** [simulationFactory] is called with the properties, here all of them but
    itself. *)
Record Props : Type := {
  options :> Options;
  simulationFactory : option (Options -> M nat)
}.

(** React fills in a default for every property that is [undefined]. *)
Definition resolve_defaults (defaults attrs : obj) : obj :=
  union_with (fun given d => Some match given with VUndefined => d | _ => given end)
    attrs defaults.

(** ** force-utils: creating a simulation *)

Definition ALPHA_FACTORS : list string :=
  ["alpha"; "alphaDecay"; "alphaMin"; "alphaTarget"; "velocityDecay"].

(** [Array.prototype.forEach] over commands. *)
Fixpoint forEach {A : Type} (items : list A) (f : A -> M unit) : M unit :=
  match items with
  | [] => mret tt
  | item :: rest => _ ← f item; forEach rest f
  end.

(** [a.map(f)] on a value: only an array has [map]. *)
Definition array_map (a : value) (f : value -> result obj) : result (list obj) :=
  match a with
  | VArr l => map_array f l
  | VUndefined => Throw (TypeError "Cannot read property 'map' of undefined")
  | VNull => Throw (TypeError "Cannot read property 'map' of null")
  | _ => Throw (TypeError "map is not a function")
  end.

(** [({id, radius}) => ({id, radius})] *)
Definition copy_node (node : value) : result obj :=
  id ← Get node "id";
  radius ← Get node "radius";
  Ok ({[ "id" := id; "radius" := radius ]} : obj).

(** [({source, target, value}) => ({source, target, value})] *)
Definition copy_link (link : value) : result obj :=
  source ← Get link "source";
  target ← Get link "target";
  val ← Get link "value";
  Ok ({[ "source" := source; "target" := target; "value" := val ]} : obj).

(** [createSimulation(options)] *)
Definition createSimulation (options : Options) : M nat :=
  simulation ← alloc
    (force_center
       (js_div (prop (attrs options) "width") (VNum 2%float))
       (js_div (prop (attrs options) "height") (VNum 2%float))
       (force_charge (force_link nodeId forceSimulation)));
  _ ← forEach ALPHA_FACTORS (fun alphaFactorName =>
         match attrs options !! alphaFactorName with
         | Some v => update simulation (fun s => Ok (set_factor alphaFactorName v s))
         | None => mret tt
         end);
  _ ← match chargeStrength options with
      | Some f => update simulation (fun s => Ok (charge_strength f s))
      | None => mret tt
      end;
  data_nodes ← lift (Get (prop (attrs options) "data") "nodes");
  seeds ← lift (array_map data_nodes copy_node);
  _ ← update simulation (fun s => Ok (set_nodes seeds s));
  data_links ← lift (Get (prop (attrs options) "data") "links");
  link_seeds ← lift (array_map data_links copy_link);
  _ ← update simulation (set_links link_seeds);
  mret simulation.

(** ** force-directed-graph: obtaining a settled simulation *)

(** [_getSimulation(props)] *)
Definition _getSimulation (props : Props) : M nat :=
  match simulationFactory props with
  | Some factory => simulation ← factory props; runSimulation simulation None
  | None => simulation ← createSimulation props; runSimulation simulation None
  end.

(** ** force-directed-graph: the static renderer *)

(** A callback property applied to a node, as the closures
    [() => props.onClickNode(node)] will do when the element is activated. *)
Record call : Type := Call {
  callee : string;
  argument : obj
}.

Record circle : Type := {
  circle_className : string;
  circle_key : value;
  cx : value;
  cy : value;
  r : value;
  fill : value;
  circle_opacity : value;
  circle_stroke : value;
  circle_strokeWidth : value;
  circle_style : value;
  onMouseEnter : call;
  onMouseLeave : call;
  circle_onClick : call
}.

Record text : Type := {
  text_className : string;
  text_key : string;
  text_style : value;
  text_x : value;
  text_y : value;
  text_onClick : call;
  text_children : value
}.

Record line : Type := {
  line_className : string;
  line_key : value;
  x1 : value;
  y1 : value;
  x2 : value;
  y2 : value;
  line_stroke : value;
  line_opacity : value;
  line_style : value;
  line_strokeWidth : value
}.

(** The [svg] element: the caller's children, then the links layer, the
    nodes layer and the labels layer, in this order. *)
Record svg : Type := {
  svg_className : string;
  svg_width : value;
  svg_height : value;
  svg_children : value;
  svg_links : list line;
  svg_nodes : list circle;
  svg_labels : list text
}.

Definition ForceDirectedGraph_defaultProps : obj :=
  {[ "width" := VNum 900%float;
     "height" := VNum 600%float;
     "labelAttr" := VStr "id";
     "showLabels" := VBool false ]}.

(** The default [labelOffset]:
    [x: node => (node.radius / 2) + 5], [y: node => 5 - node.radius]. *)
Definition default_labelOffset : LabelOffset := {|
  offset_x := fun node => js_add (js_div (prop node "radius") (VNum 2%float)) (VNum 5%float);
  offset_y := fun node => js_sub (VNum 5%float) (prop node "radius")
|}.

(** The properties [ForceDirectedGraph] is called with once React has
    applied [ForceDirectedGraph.defaultProps]. *)
Definition with_defaultProps (props : Props) : Props := {|
  options := {|
    nodes := nodes props;
    links := links props;
    attrs := resolve_defaults ForceDirectedGraph_defaultProps (attrs props);
    defaultSelectedNode := defaultSelectedNode props;
    chargeStrength := chargeStrength props;
    labelOffset := Some (default default_labelOffset (labelOffset props));
    callbacks := callbacks props
  |};
  simulationFactory := simulationFactory props
|}.

(** The [<circle>] element of a hydrated [node] at [positionNode]. *)
Definition circle_element (positionNode node : obj) : circle := {|
  circle_className := "force-directed-graph--node";
  circle_key := nodeId node;
  cx := prop positionNode "x";
  cy := prop positionNode "y";
  r := prop node "radius";
  fill := prop node "color";
  circle_opacity := prop node "opacity";
  circle_stroke := prop node "stroke";
  circle_strokeWidth := prop node "strokeWidth";
  circle_style := prop node "style";
  onMouseEnter := Call "onHoverNode" node;
  onMouseLeave := Call "onBlurNode" node;
  circle_onClick := Call "onClickNode" node
|}.

(** The [<text>] element of a hydrated [node]. *)
Definition text_element (props : Props) (offset : LabelOffset) (node : obj) : text := {|
  text_className := "force-directed-graph--label";
  text_key := ToString (nodeId node) +:+ "-label";
  text_style := prop node "labelStyle";
  text_x := js_add (prop node "x") (offset_x offset node);
  text_y := js_add (prop node "y") (offset_y offset node);
  text_onClick := Call "onClickLabel" node;
  text_children := prop node (ToString (prop (attrs props) "labelAttr"))
|}.

(** The body of [simulation.nodes().forEach(positionNode => ...)]: one circle
    is pushed, and one label when [showLabels || node.showLabel]. *)
Definition push_node (props : Props) (nodeMap : obj)
    (elements : list circle * list text) (positionNode : obj)
  : result (list circle * list text) :=
  node ← _hydrateFromMap positionNode (total nodeId) nodeMap;
  let nodeElements := elements.1 ++ [circle_element positionNode node] in
  if ToBoolean (js_or (prop (attrs props) "showLabels") (prop node "showLabel")) then
    match labelOffset props with
    | Some offset => Ok (nodeElements, elements.2 ++ [text_element props offset node])
    | None => Throw (TypeError "Cannot read property 'x' of undefined")
    end
  else Ok (nodeElements, elements.2).

(** The body of [simulation.force('link').links().forEach(positionLink => ...)]. *)
Definition push_link (linkMap : obj) (linkElements : list line) (positionLink : obj)
  : result (list line) :=
  let source := prop positionLink "source" in
  let target := prop positionLink "target" in
  link ← _hydrateFromMap positionLink linkId linkMap;
  key ← linkId link;
  source_x ← Get source "x";
  source_y ← Get source "y";
  target_x ← Get target "x";
  target_y ← Get target "y";
  Ok (linkElements ++ [ {|
    line_className := "force-directed-graph--link";
    line_key := key;
    x1 := source_x;
    y1 := source_y;
    x2 := target_x;
    y2 := target_y;
    line_stroke := prop link "color";
    line_opacity := prop link "opacity";
    line_style := prop link "style";
    line_strokeWidth := Math_sqrt (prop link "value")
  |} ]).

(** [ForceDirectedGraph(props)] *)
Definition ForceDirectedGraph (props : Props) : M svg :=
  nodeMap ← lift (_mapItemsById (nodes props) (total nodeId) NODE_DEFAULTS);
  linkMap ← lift (_mapItemsById (links props) linkId LINK_DEFAULTS);
  simulation ← _getSimulation props;
  settled ← deref simulation;
  elements ← lift (reduce (push_node props nodeMap) (get_nodes settled) ([], []));
  settled ← deref simulation;
  linkElements ← lift (reduce (push_link linkMap) (get_links settled) []);
  mret {|
    svg_className := "force-directed-graph";
    svg_width := prop (attrs props) "width";
    svg_height := prop (attrs props) "height";
    svg_children := prop (attrs props) "children";
    svg_links := linkElements;
    svg_nodes := elements.1;
    svg_labels := elements.2
  |}.

(** ** interactive-force-directed-graph: the interactive overlay *)

Definition DEFAULT_NODE_STYLES : obj := {[ "cursor" := VStr "pointer" ]}.
Definition DEFAULT_LABEL_STYLES : obj := {[ "cursor" := VStr "pointer" ]}.

(** [InteractiveForceDirectedGraph.defaultProps]; [defaultSelectedNode]
    defaults to [null], [onSelectNode] and [onDeselectNode] to functions
    that do nothing. *)
Definition Interactive_defaultProps : obj := {[ "opacityFactor" := VNum 4%float ]}.

Definition with_interactive_defaultProps (props : Props) : Props := {|
  options := {|
    nodes := nodes props;
    links := links props;
    attrs := resolve_defaults Interactive_defaultProps (attrs props);
    defaultSelectedNode := defaultSelectedNode props;
    chargeStrength := chargeStrength props;
    labelOffset := labelOffset props;
    callbacks := callbacks props
  |};
  simulationFactory := simulationFactory props
|}.

(** [this.state]: a node or [null] in each field. *)
Record State : Type := {
  hoveredNode : option obj;
  selectedNode : option obj
}.

(** What a handler does: the next state and the caller's callbacks it
    invoked, in order. *)
Definition effect : Type := State * list call.

(** [constructor(props)] *)
Definition constructor (props : Props) : State := {|
  hoveredNode := None;
  selectedNode := defaultSelectedNode props
|}.

(** [onHoverNode(hoveredNode) { this.setState({hoveredNode}); }] *)
Definition onHoverNode (props : Props) (state : State) (hoveredNode : obj) : effect :=
  ({| hoveredNode := Some hoveredNode; selectedNode := selectedNode state |}, []).

(** [onBlurNode() { this.setState({hoveredNode: null}); }] *)
Definition onBlurNode (props : Props) (state : State) (_ : obj) : effect :=
  ({| hoveredNode := None; selectedNode := selectedNode state |}, []).

(** [onClickNode(selectedNode)] *)
Definition onClickNode (props : Props) (state : State) (selectedNode' : obj) : effect :=
  let previousNode := selectedNode state in
  match previousNode with
  | Some previous =>
      if strict_eq (nodeId previous) (nodeId selectedNode') then
        ({| hoveredNode := hoveredNode state; selectedNode := None |},
         [Call "onDeselectNode" selectedNode'])
      else
        ({| hoveredNode := hoveredNode state; selectedNode := Some selectedNode' |},
         [Call "onSelectNode" selectedNode'])
  | None =>
      ({| hoveredNode := hoveredNode state; selectedNode := Some selectedNode' |},
       [Call "onSelectNode" selectedNode'])
  end.

(** [onClickLabel(selectedNode) { this.onClickNode(selectedNode); }] *)
Definition onClickLabel (props : Props) (state : State) (selectedNode' : obj) : effect :=
  onClickNode props state selectedNode'.

(** [this[name]] for the method names [render] uses. *)
Definition method_named (name : string) : option (Props -> State -> obj -> effect) :=
  if String.eqb name "onHoverNode" then Some onHoverNode
  else if String.eqb name "onBlurNode" then Some onBlurNode
  else if String.eqb name "onClickNode" then Some onClickNode
  else if String.eqb name "onClickLabel" then Some onClickLabel
  else None.

(** [_createEventHanlder(name, fn)]: the component's own method runs first,
    then the caller's callback [fn] when there is one.  [fn] is the property
    of that name in [this.props]. *)
Definition _createEventHanlder (props : Props) (name fn : string)
    (state : State) (arg : obj) : effect :=
  match method_named name with
  | Some method =>
      let '(state', invoked) := method props state arg in
      (state', invoked ++ if decide (fn ∈ callbacks props) then [Call fn arg] else [])
  | None => (state, [])
  end.

(** [null] or the node, as a value. *)
Definition node_value (node : option obj) : value :=
  match node with
  | Some n => VObj n
  | None => VNull
  end.

(** [function _applyOpacity(opacity = 1) { return opacity / opacityFactor; }] *)
Definition _applyOpacity (opacityFactor : value) (opacity : value) : value :=
  let opacity := match opacity with VUndefined => VNum 1%float | _ => opacity end in
  js_div opacity opacityFactor.

(** [focus && nodeId(focus) === nodeId(node)] *)
Definition focus_matches (focus : option obj) (node : obj) : value :=
  match focus with
  | Some f => VBool (strict_eq (nodeId f) (nodeId node))
  | None => VNull
  end.

(** [!focus || nodeId(focus) !== nodeId(node)] *)
Definition focus_differs (focus : option obj) (node : obj) : value :=
  match focus with
  | Some f => VBool (negb (strict_eq (nodeId f) (nodeId node)))
  | None => VBool true
  end.

(** The callback of [nodes.map] in [render]. *)
Definition style_node (props : Props) (state : State) (node : obj) : obj :=
  let opacityFactor := prop (attrs props) "opacityFactor" in
  Object_assign ∅ [VObj node; VObj {[
    "style" := VObj (Object_assign ∅ [VObj DEFAULT_NODE_STYLES; prop node "styles"]);
    "labelStyle" := VObj (Object_assign ∅ [VObj DEFAULT_LABEL_STYLES; prop node "labelStyles"]);
    "showLabel" :=
      js_or (focus_matches (selectedNode state) node) (focus_matches (hoveredNode state) node);
    "opacity" :=
      if ToBoolean
           (js_and
              (js_and
                 (js_or (node_value (selectedNode state)) (node_value (hoveredNode state)))
                 (focus_differs (selectedNode state) node))
              (focus_differs (hoveredNode state) node))
      then _applyOpacity opacityFactor (prop node "opacity")
      else prop node "opacity"
  ]}].

(** The callback of [links.map] in [render]. *)
Definition style_link (props : Props) (state : State) (link : obj) : obj :=
  let opacityFactor := prop (attrs props) "opacityFactor" in
  Object_assign ∅ [VObj link; VObj {[
    "opacity" :=
      if ToBoolean (js_or (node_value (selectedNode state)) (node_value (hoveredNode state)))
      then _applyOpacity opacityFactor (prop link "opacity")
      else prop link "opacity"
  ]}].

Definition styledNodes (props : Props) (state : State) : list obj :=
  style_node props state <$> nodes props.

Definition styledLinks (props : Props) (state : State) : list obj :=
  style_link props state <$> links props.

(** [render()]: the properties of the [ForceDirectedGraph] element.  The
    spread passes on everything but [opacityFactor], the graph data and the
    four interaction callbacks, which are replaced. *)
Definition render (props : Props) (state : State) : Props := {|
  options := {|
    nodes := styledNodes props state;
    links := styledLinks props state;
    attrs := delete "opacityFactor" (attrs props);
    defaultSelectedNode := defaultSelectedNode props;
    chargeStrength := chargeStrength props;
    labelOffset := labelOffset props;
    callbacks :=
      {[ "onHoverNode"; "onBlurNode"; "onClickNode"; "onClickLabel" ]} ∪ callbacks props
  |};
  simulationFactory := simulationFactory props
|}.

(** The four callbacks [render] hands to [ForceDirectedGraph], by property
    name. *)
Definition handler (props : Props) (name : string) : option (State -> obj -> effect) :=
  if String.eqb name "onHoverNode" then
    Some (_createEventHanlder props "onHoverNode" "onHoverNode")
  else if String.eqb name "onBlurNode" then
    Some (_createEventHanlder props "onBlurNode" "onBlurNode")
  else if String.eqb name "onClickNode" then
    Some (_createEventHanlder props "onClickNode" "onClickNode")
  else if String.eqb name "onClickLabel" then
    Some (_createEventHanlder props "onClickNode" "onClickLabel")
  else None.

(** Activating an element's closure: the callback it names is applied to
    the node it captured. *)
Definition fire (props : Props) (c : call) (state : State) : effect :=
  match handler props (callee c) with
  | Some h => h state (argument c)
  | None => (state, [])
  end.

(** The tree the interactive component shows in a given state. *)
Definition view (props : Props) (state : State) : M svg :=
  let props := with_interactive_defaultProps props in
  ForceDirectedGraph (with_defaultProps (render props state)).

End Program.

(** * The claims' vocabulary

    Definitions that follow the words of the specification, to state what
    the code above is compared with. *)

Section Vocabulary.
Context `{Host} `{ForceLibrary}.

(** Some node is selected or hovered. *)
Definition focused (state : State) : bool :=
  match selectedNode state, hoveredNode state with
  | None, None => false
  | _, _ => true
  end.

(** [node]'s id matches the id of the selected (or hovered) node [focus]. *)
Definition is_focus (focus : option obj) (node : obj) : bool :=
  match focus with
  | Some f => strict_eq (nodeId f) (nodeId node)
  | None => false
  end.

(** Some node is selected or hovered and [node] is neither of them. *)
Definition dimmed (state : State) (node : obj) : bool :=
  focused state && negb (is_focus (selectedNode state) node)
                && negb (is_focus (hoveredNode state) node).

(** The fields [render] lays over a node. *)
Definition node_overlay (props : Props) (state : State) (node : obj) : obj :=
  {[ "style" := VObj (Object_assign ∅ [VObj DEFAULT_NODE_STYLES; prop node "styles"]);
     "labelStyle" := VObj (Object_assign ∅ [VObj DEFAULT_LABEL_STYLES; prop node "labelStyles"]);
     "showLabel" :=
       js_or (focus_matches (selectedNode state) node) (focus_matches (hoveredNode state) node);
     "opacity" :=
       if dimmed state node
       then _applyOpacity (prop (attrs props) "opacityFactor") (prop node "opacity")
       else prop node "opacity" ]}.

(** A positional node once the fields of its entry in the map are laid over
    it. *)
Definition hydrated (map : obj) (positionNode : obj) : obj :=
  own_props (prop map (ToString (nodeId positionNode))) ∪ positionNode.

(** The node is drawn with a label. *)
Definition labelled (props : Props) (node : obj) : bool :=
  ToBoolean (prop (attrs props) "showLabels") || ToBoolean (prop node "showLabel").

(** [null] or [undefined]. *)
Definition nullish (v : value) : bool :=
  match v with
  | VUndefined | VNull => true
  | _ => false
  end.

(** The record holding only the [id] and [radius] of a node. *)
Definition node_copy (node : value) : obj :=
  {[ "id" := prop (own_props node) "id"; "radius" := prop (own_props node) "radius" ]}.

(** The record holding only the [source], [target] and [value] of a link. *)
Definition link_copy (link : value) : obj :=
  {[ "source" := prop (own_props link) "source";
     "target" := prop (own_props link) "target";
     "value" := prop (own_props link) "value" ]}.

(** A computation returned normally. *)
Definition completed {A : Type} (r : result A) : bool :=
  match r with
  | Ok _ => true
  | Throw _ => false
  end.

(** The reference a computation returned and the positional nodes of the
    simulation behind it. *)
Definition settled_nodes (r : result (nat * world)) : option (nat * list obj) :=
  match r with
  | Ok (simulation, w) =>
      match sims w !! simulation with
      | Some settled => Some (simulation, get_nodes settled)
      | None => None
      end
  | Throw _ => None
  end.

(** The select and deselect callbacks among the callbacks invoked. *)
Definition selection_events (invoked : list call) : list call :=
  filter (fun c => callee c = "onSelectNode" \/ callee c = "onDeselectNode") invoked.

End Vocabulary.

(** * Further vocabulary

    Definitions used to state how the simulation is configured and settled,
    which links cannot be identified, and what a sequence of events does. *)

Section Observations.
Context `{Host} `{ForceLibrary}.

(** The alpha factors that are own properties of the options, set one after
    the other in the order of [names]. *)
Definition apply_factors (options : Options) (names : list string) (s : Sim) : Sim :=
  foldl (fun s name =>
           match attrs options !! name with
           | Some v => set_factor name v s
           | None => s
           end) s names.

(** The simulation as it is configured when the graph data is read: the
    three forces, then the alpha factors, then the charge strength. *)
Definition configured (options : Options) : Sim :=
  let centred :=
    force_center
      (js_div (prop (attrs options) "width") (VNum 2%float))
      (js_div (prop (attrs options) "height") (VNum 2%float))
      (force_charge (force_link nodeId forceSimulation)) in
  let tuned := apply_factors options ALPHA_FACTORS centred in
  match chargeStrength options with
  | Some f => charge_strength f tuned
  | None => tuned
  end.

(** The lifecycle calls of one settle: a restart, 300 ticks, a stop. *)
Definition settle_calls (simulation : nat) : list (nat * method) :=
  [(simulation, Restart)] ++ replicate 300 (simulation, Tick) ++ [(simulation, Stop)].

(** The state of a simulation after one settle. *)
Definition settle (s : Sim) : Sim := stop (Nat.iter 300 tick (restart s)).

(** A link one of whose endpoints is missing, [undefined] or [null]. *)
Definition dangling (link : obj) : bool :=
  nullish (prop link "source") || nullish (prop link "target").

(** Elements activated one after the other: each handler sees the state the
    previous one left; the callbacks invoked are collected in order. *)
Fixpoint fire_all (props : Props) (events : list call) (state : State) : effect :=
  match events with
  | [] => (state, [])
  | c :: rest =>
      let '(state1, first) := fire props c state in
      let '(state2, others) := fire_all props rest state1 in
      (state2, first ++ others)
  end.

(** The selection a caller works out from the selection callbacks alone: the
    node of the last one if it was a select, none if it was a deselect, and
    the selection it started from if there was no such callback. *)
Definition told_selection (initial : option obj) (invoked : list call) : option obj :=
  match last (selection_events invoked) with
  | Some c => if String.eqb (callee c) "onSelectNode" then Some (argument c) else None
  | None => initial
  end.

End Observations.

(** * Sample inputs *)

Section Samples.
Context `{Host} `{ForceLibrary}.

(** Properties as the renderer receives them, with the graph data under the
    top-level keys [nodes] and [links] and no [data] key:
    [{width: 900, height: 600, nodes: [{id: "a"}], links: []}]. *)
Definition top_level_options : Options := {|
  nodes := [ {[ "id" := VStr "a" ]} ];
  links := [];
  attrs := {[ "width" := VNum 900%float; "height" := VNum 600%float ]};
  defaultSelectedNode := None;
  chargeStrength := None;
  labelOffset := None;
  callbacks := ∅
|}.

Definition top_level_props : Props := {|
  options := top_level_options;
  simulationFactory := None
|}.

End Samples.

(** ** A host and a force library to run the samples

    [constant_host] converts every number to ["NaN"] and every string to
    [NaN]; the samples convert neither.  [still_library] is a force library
    whose layout does not move: every node is placed at the origin, links
    are resolved to the node records of their endpoints, ticks are counted
    and the timer flag is kept. *)
Definition constant_host : Host := {|
  NumberToString := fun _ => "NaN";
  StringToNumber := fun _ => nan
|}.

Record still_sim : Type := {
  still_nodes : list obj;
  still_links : list obj;
  still_factors : obj;
  still_running : bool;
  still_ticks : nat
}.

Definition still_place (node : obj) : obj :=
  <["x" := VNum 0%float]> (<["y" := VNum 0%float]>
    (<["vx" := VNum 0%float]> (<["vy" := VNum 0%float]> node))).

Definition still_find (placed : list obj) (id : value) : result value :=
  match List.find (fun n => strict_eq (prop n "id") id) placed with
  | Some n => Ok (VObj n)
  | None => Throw (LibraryError "missing")
  end.

Definition still_resolve (placed : list obj) (link : obj) : result obj :=
  source ← still_find placed (prop link "source");
  target ← still_find placed (prop link "target");
  Ok (<["source" := source]> (<["target" := target]> link)).

Definition still_library : ForceLibrary := {|
  Sim := still_sim;
  forceSimulation :=
    {| still_nodes := []; still_links := []; still_factors := ∅;
       still_running := true; still_ticks := 0 |};
  force_link := fun _ s => s;
  force_charge := fun s => s;
  force_center := fun _ _ s => s;
  set_factor := fun name v s =>
    {| still_nodes := still_nodes s; still_links := still_links s;
       still_factors := <[name := v]> (still_factors s);
       still_running := still_running s; still_ticks := still_ticks s |};
  charge_strength := fun _ s => s;
  set_nodes := fun seeds s =>
    {| still_nodes := still_place <$> seeds; still_links := still_links s;
       still_factors := still_factors s;
       still_running := still_running s; still_ticks := still_ticks s |};
  set_links := fun seeds s =>
    resolved ← map_array (still_resolve (still_nodes s)) seeds;
    Ok {| still_nodes := still_nodes s; still_links := resolved;
          still_factors := still_factors s;
          still_running := still_running s; still_ticks := still_ticks s |};
  get_nodes := still_nodes;
  get_links := still_links;
  restart := fun s =>
    {| still_nodes := still_nodes s; still_links := still_links s;
       still_factors := still_factors s;
       still_running := true; still_ticks := still_ticks s |};
  tick := fun s =>
    {| still_nodes := still_nodes s; still_links := still_links s;
       still_factors := still_factors s;
       still_running := still_running s; still_ticks := S (still_ticks s) |};
  stop := fun s =>
    {| still_nodes := still_nodes s; still_links := still_links s;
       still_factors := still_factors s;
       still_running := false; still_ticks := still_ticks s |}
|}.

(** The graph of the specification's scenarios: nodes ["a"] (of opacity 1)
    and ["b"] (with no visual field), one link from ["a"] to ["b"] of value
    4 and opacity 0.5.  The data is also passed under [data], where
    [createSimulation] reads it. *)
Definition node_a : obj := {[ "id" := VStr "a"; "opacity" := VNum 1%float ]}.
Definition node_b : obj := {[ "id" := VStr "b" ]}.
Definition link_ab : obj :=
  {[ "source" := VStr "a"; "target" := VStr "b"; "value" := VNum 4%float;
     "opacity" := VNum 0.5%float ]}.

Definition sample_options : Options := {|
  nodes := [node_a; node_b];
  links := [link_ab];
  attrs :=
    {[ "data" := VObj {[ "nodes" := VArr [VObj node_a; VObj node_b];
                         "links" := VArr [VObj link_ab] ]} ]};
  defaultSelectedNode := None;
  chargeStrength := None;
  labelOffset := None;
  callbacks := ∅
|}.

Definition sample_props : Props :=
  {| options := sample_options; simulationFactory := @None (Options -> @M still_library nat) |}.

Definition idle : State := {| hoveredNode := None; selectedNode := None |}.
Definition hovering_a : State := {| hoveredNode := Some node_a; selectedNode := None |}.
Definition hovering_b : State := {| hoveredNode := Some node_b; selectedNode := None |}.

(** The positional nodes [still_library] returns for the sample graph. *)
Definition position_a : obj := still_place {[ "id" := VStr "a"; "radius" := VUndefined ]}.
Definition position_b : obj := still_place {[ "id" := VStr "b"; "radius" := VUndefined ]}.

(** The sample link once its endpoints are resolved to the placed nodes. *)
Definition resolved_ab : obj :=
  {[ "source" := VObj position_a; "target" := VObj position_b; "value" := VNum 4%float ]}.

(** Two nodes of one id, and two links between the same endpoints. *)
Definition red_a : obj := {[ "id" := VStr "a"; "color" := VStr "red" ]}.
Definition blue_a : obj := {[ "id" := VStr "a"; "color" := VStr "blue" ]}.
Definition thin_ab : obj :=
  {[ "source" := VStr "a"; "target" := VStr "b"; "value" := VNum 1%float ]}.

(** A world holding one fresh simulation, under reference 0. *)
Definition one_simulation : @world still_library :=
  World {[ 0 := @forceSimulation still_library ]} [].

Definition empty_world : @world still_library := World ∅ [].

(** Options tuned with [alpha], [velocityDecay] and a charge strength, with
    the sample graph under [data]. *)
Definition tuned_options : Options := {|
  nodes := [node_a; node_b];
  links := [link_ab];
  attrs :=
    {[ "alpha" := VNum 0.5%float;
       "velocityDecay" := VNum 0.25%float;
       "data" := VObj {[ "nodes" := VArr [VObj node_a; VObj node_b];
                         "links" := VArr [VObj link_ab] ]} ]};
  defaultSelectedNode := None;
  chargeStrength := Some (fun node => prop node "radius");
  labelOffset := None;
  callbacks := ∅
|}.

(** Properties with a [simulationFactory] and no [data] key: the factory
    returns a new simulation on node ["b"]. *)
Definition sample_factory : Options -> @M still_library nat :=
  fun _ => @alloc still_library (@set_nodes still_library [node_b] (@forceSimulation still_library)).

Definition factory_props : Props :=
  {| options := top_level_options; simulationFactory := Some sample_factory |}.

(** A link with no target, after the sample link. *)
Definition half_link : obj := {[ "source" := VStr "a" ]}.

Definition dangling_props : Props := {|
  options := {|
    nodes := [node_a; node_b];
    links := [link_ab; half_link];
    attrs := ∅;
    defaultSelectedNode := None;
    chargeStrength := None;
    labelOffset := None;
    callbacks := ∅
  |};
  simulationFactory := Some sample_factory
|}.

(** The sample graph with the thin link, which has no opacity and no color. *)
Definition thin_props : Props := {|
  options := {|
    nodes := [node_a; node_b];
    links := [thin_ab];
    attrs := ∅;
    defaultSelectedNode := None;
    chargeStrength := None;
    labelOffset := None;
    callbacks := ∅
  |};
  simulationFactory := @None (Options -> @M still_library nat)
|}.

(** Properties asking for every label. *)
Definition labelled_props : Props := {|
  options := {|
    nodes := [node_a];
    links := [];
    attrs := {[ "showLabels" := VBool true ]};
    defaultSelectedNode := None;
    chargeStrength := None;
    labelOffset := None;
    callbacks := ∅
  |};
  simulationFactory := @None (Options -> @M still_library nat)
|}.

(** A node that brings a [style] and a [showLabel] of its own. *)
Definition dressed_a : obj :=
  {[ "id" := VStr "a"; "style" := VObj {[ "cursor" := VStr "wait" ]};
     "showLabel" := VBool true ]}.


(** * Properties *)

(** ** Records and [Object.assign] *)

Section Records.
Context `{Host}.

(** [Object.assign({}, a, b)]: the fields of [b], then those of [a]. *)
Lemma Object_assign_two (a b : obj) :
  Object_assign ∅ [VObj a; VObj b] = b ∪ a.
Proof. cbn. by rewrite (right_id_L ∅ (∪)). Qed.

Lemma prop_lookup (o : obj) (k : string) (v : value) :
  o !! k = Some v -> prop o k = v.
Proof. unfold prop. by intros ->. Qed.

Lemma prop_missing (o : obj) (k : string) : o !! k = None -> prop o k = VUndefined.
Proof. unfold prop. by intros ->. Qed.

Lemma prop_union_l (a b : obj) (k : string) :
  is_Some (a !! k) -> prop (a ∪ b) k = prop a k.
Proof.
  intros [v Hv]. unfold prop. by rewrite (lookup_union_Some_l a b k v Hv), Hv.
Qed.

Lemma prop_union_r (a b : obj) (k : string) :
  a !! k = None -> prop (a ∪ b) k = prop b k.
Proof. intros Hk. unfold prop. by rewrite lookup_union_r. Qed.

End Records.

(** ** The identity map *)

Section IdentityMap.
Context `{Host}.
Implicit Types (items before after : list obj) (item : obj) (defaults acc : obj).
Implicit Types (_id : obj -> result value).

Lemma reduce_cons {A B : Type} (f : B -> A -> result B) (a : A) (l : list A) (b : B) :
  reduce f (a :: l) b = (b' ← f b a; reduce f l b').
Proof. reflexivity. Qed.

Lemma reduce_app {A B : Type} (f : B -> A -> result B) (l1 l2 : list A) (b : B) :
  reduce f (l1 ++ l2) b = (b' ← reduce f l1 b; reduce f l2 b').
Proof.
  revert b. induction l1 as [|a l1 IH]; intros b; [done|].
  cbn. destruct (f b a) as [b'|e]; cbn; [apply IH|done].
Qed.

Lemma assign_item_ok _id defaults acc item (k : value) :
  _id item = Ok k ->
  assign_item _id defaults acc item =
    Ok (<[ToString k := VObj (Object_assign ∅ [VObj defaults; VObj item])]> acc).
Proof. intros Hk. unfold assign_item. rewrite Hk. cbn. by rewrite insert_union_singleton_l. Qed.

Lemma assign_item_inv _id defaults acc item m :
  assign_item _id defaults acc item = Ok m ->
  exists k, _id item = Ok k /\
    m = <[ToString k := VObj (Object_assign ∅ [VObj defaults; VObj item])]> acc.
Proof.
  unfold assign_item. destruct (_id item) as [k|e]; cbn; [|done].
  intros [= <-]. exists k. by rewrite insert_union_singleton_l.
Qed.

(** The reducer succeeds as soon as every item has an id. *)
Lemma reduce_assign_total items _id defaults acc :
  Forall (fun item => exists k, _id item = Ok k) items ->
  exists m, reduce (assign_item _id defaults) items acc = Ok m.
Proof.
  intros Hall. revert acc. induction Hall as [|item items [k Hk] _ IH]; intros acc.
  - by exists acc.
  - rewrite reduce_cons, (assign_item_ok _ _ _ _ k Hk). apply IH.
Qed.

(** Items whose key differs from [key] leave the entry at [key] alone. *)
Lemma reduce_assign_other items _id defaults acc (key : string) m :
  Forall (fun item => forall v, _id item = Ok v -> ToString v <> key) items ->
  reduce (assign_item _id defaults) items acc = Ok m ->
  m !! key = acc !! key.
Proof.
  intros Hall. revert acc. induction Hall as [|item items Hitem _ IH]; intros acc Hm.
  - cbn in Hm. by inversion Hm.
  - rewrite reduce_cons in Hm.
    destruct (assign_item _id defaults acc item) as [acc'|e] eqn:Hstep; [|done].
    apply assign_item_inv in Hstep as (k & Hk & ->).
    rewrite (IH _ Hm), lookup_insert_ne; [done|]. by apply Hitem.
Qed.

Lemma _mapItemsById_last items _id defaults before item after (k : value) :
  items = before ++ item :: after ->
  Forall (fun it => exists v, _id it = Ok v) items ->
  _id item = Ok k ->
  Forall (fun it => forall v, _id it = Ok v -> ToString v <> ToString k) after ->
  exists m, _mapItemsById items _id defaults = Ok m /\
    m !! ToString k = Some (VObj (Object_assign ∅ [VObj defaults; VObj item])).
Proof.
  intros -> Hall Hk Hafter.
  destruct (reduce_assign_total _ _id defaults ∅ Hall) as [m Hm].
  exists m. split; [done|].
  rewrite reduce_app in Hm.
  destruct (reduce (assign_item _id defaults) before ∅) as [m0|e] eqn:Hbefore; [|done].
  cbn in Hm. change (reduce (assign_item _id defaults) (item :: after) m0 = Ok m) in Hm.
  rewrite reduce_cons, (assign_item_ok _ _ _ _ k Hk) in Hm.
  rewrite (reduce_assign_other _ _ _ _ _ _ Hafter Hm).
  by rewrite lookup_insert_eq.
Qed.

End IdentityMap.

(** ** Identifiers and hydration *)

Section Identifiers.
Context `{Host}.

Lemma Get_string (s k : string) :
  (forall i : nat, pretty i <> k) -> Get (VStr s) k = Ok VUndefined.
Proof.
  intros Hk. cbn. f_equal. apply prop_missing.
  apply not_elem_of_list_to_map_1. rewrite fmap_imap.
  intros Hin. apply elem_of_lookup_imap in Hin as (i & c & Hi & _). by apply (Hk i).
Qed.

Lemma string_append_assoc (a b c : string) : (a +:+ b) +:+ c = a +:+ (b +:+ c).
Proof.
  induction a as [|x a IH]; [done|].
  change (String x ((a +:+ b) +:+ c) = String x (a +:+ (b +:+ c))). by rewrite IH.
Qed.

(** The decimal numeral of an index ends in a digit. *)
Lemma pretty_N_go_suffix (x : N) (s : string) : exists t, pretty_N_go x s = t +:+ s.
Proof.
  revert s. induction (N.lt_wf_0 x) as [x _ IH]; intros s.
  assert (x = 0 \/ 0 < x)%N as [->|Hpos] by lia.
  - rewrite pretty_N_go_0. by exists "".
  - rewrite pretty_N_go_step by done.
    destruct (IH (x `div` 10)%N (N.div_lt x 10 Hpos ltac:(done))
                (String (pretty_N_char (x `mod` 10)) s)) as [t Ht].
    exists (t +:+ String (pretty_N_char (x `mod` 10)) ""). rewrite Ht.
    by rewrite string_append_assoc.
Qed.

Lemma append_last_id (t : string) (c : Ascii.ascii) :
  t +:+ String c "" = "id" -> String c "" = "d".
Proof.
  destruct t as [|a [|b t]]; cbn.
  - intros [= ].
  - intros [= _ Hc]. by rewrite Hc.
  - intros [= _ _ Heq]. destruct t; discriminate.
Qed.

Lemma pretty_nat_not_id (i : nat) : pretty i <> "id".
Proof.
  unfold pretty, pretty_nat, pretty, pretty_N.
  destruct (decide (N.of_nat i = 0%N)) as [_|Hne]; [done|].
  rewrite pretty_N_go_step by lia.
  destruct (pretty_N_go_suffix (N.of_nat i `div` 10)
              (String (pretty_N_char (N.of_nat i `mod` 10)) "")) as [t ->].
  intros Heq. apply append_last_id in Heq.
  unfold pretty_N_char in Heq. repeat case_match; discriminate.
Qed.

(** A string has no [id] property. *)
Lemma Get_string_id (s : string) : Get (VStr s) "id" = Ok VUndefined.
Proof. apply Get_string, pretty_nat_not_id. Qed.

End Identifiers.

Section IdentifierClaims.
Context `{Host}.

Lemma ToBoolean_string (s : string) : s <> "" -> ToBoolean (VStr s) = true.
Proof. intros Hs. cbn. by destruct (String.eqb_spec s ""). Qed.

(** On non-empty string ids, [linkId] returns ["{sourceId}=>{targetId}"],
    the same string for the raw link, whose endpoints are the id strings,
    and for the resolved link, whose endpoints are node records carrying
    those ids. *)
Theorem linkId_nonempty_ids (raw resolved source target : obj) (s t : string) :
  s <> "" -> t <> "" ->
  prop raw "source" = VStr s -> prop raw "target" = VStr t ->
  prop resolved "source" = VObj source -> prop resolved "target" = VObj target ->
  nodeId source = VStr s -> nodeId target = VStr t ->
  linkId raw = Ok (VStr (s +:+ "=>" +:+ t)) /\
  linkId resolved = Ok (VStr (s +:+ "=>" +:+ t)).
Proof.
  intros Hs Ht Hrs Hrt Hos Hot Hsid Htid. unfold linkId. split.
  - rewrite Hrs, Hrt, !Get_string_id. done.
  - rewrite Hos, Hot. cbn. fold (nodeId source) (nodeId target).
    rewrite Hsid, Htid. unfold js_or. by rewrite !ToBoolean_string.
Qed.

(** C6, at an empty id: for the edge from the node whose id is the empty
    string to node ["b"], [linkId] of the raw link is ["=>b"], while
    [linkId] of the resolved link is ["[object Object]=>b"]: the empty id is
    falsy, so [||] falls through to the node record itself. *)
Theorem linkId_empty_id :
  linkId {[ "source" := VStr ""; "target" := VStr "b" ]} = Ok (VStr "=>b") /\
  linkId {[ "source" := VObj {[ "id" := VStr "" ]};
            "target" := VObj {[ "id" := VStr "b" ]} ]}
    = Ok (VStr "[object Object]=>b").
Proof. split; reflexivity. Qed.

(** [_hydrateFromMap] when the map has an entry for the item: the entry's
    fields, then the item's. *)
Lemma _hydrateFromMap_entry (item map entry : obj) (_id : obj -> result value) (k : value) :
  _id item = Ok k ->
  map !! ToString k = Some (VObj entry) ->
  _hydrateFromMap item _id map = Ok (entry ∪ item).
Proof.
  intros Hk Hentry. unfold _hydrateFromMap. rewrite Hk. cbn.
  rewrite (prop_lookup _ _ _ Hentry). cbn. by rewrite (right_id_L ∅ (∪)).
Qed.

(** [_hydrateFromMap] when the map has no entry: a copy of the item. *)
Lemma _hydrateFromMap_missing (item map : obj) (_id : obj -> result value) (k : value) :
  _id item = Ok k ->
  map !! ToString k = None ->
  _hydrateFromMap item _id map = Ok item.
Proof.
  intros Hk Hentry. unfold _hydrateFromMap. rewrite Hk. cbn.
  rewrite (prop_missing _ _ Hentry). cbn.
  by rewrite (left_id_L ∅ (∪)), (right_id_L ∅ (∪)).
Qed.

(** C8: a node record holding only an id, hydrated through the node map
    built with [NODE_DEFAULTS], is the default visual record (radius 5,
    opacity 1, color '#333', stroke '#fff', strokeWidth 1.5, showLabel false)
    plus its id; and hydrating a positional item of that id gives that record
    laid over the item, the map's fields winning.  The node is the last of
    its id in the list. *)
Theorem hydrate_defaults (before after : list obj) (id : value) (positionNode : obj) :
  let node : obj := {[ "id" := id ]} in
  let nodes := before ++ node :: after in
  Forall (fun n => ToString (nodeId n) <> ToString id) after ->
  nodeId positionNode = id ->
  exists nodeMap,
    _mapItemsById nodes (total nodeId) NODE_DEFAULTS = Ok nodeMap /\
    _hydrateFromMap node (total nodeId) nodeMap = Ok (<["id" := id]> NODE_DEFAULTS) /\
    exists hydrated,
      _hydrateFromMap positionNode (total nodeId) nodeMap = Ok hydrated /\
      hydrated = <["id" := id]> NODE_DEFAULTS ∪ positionNode /\
      hydrated !! "radius" = Some (VNum 5%float) /\
      hydrated !! "opacity" = Some (VNum 1%float) /\
      hydrated !! "color" = Some (VStr "#333") /\
      hydrated !! "stroke" = Some (VStr "#fff") /\
      hydrated !! "strokeWidth" = Some (VNum 1.5%float) /\
      hydrated !! "showLabel" = Some (VBool false) /\
      hydrated !! "id" = Some id.
Proof.
  intros node nodes Hafter Hpos.
  assert (Hnode : nodeId node = id) by (unfold nodeId, node, prop; by rewrite lookup_singleton_eq).
  destruct (_mapItemsById_last nodes (total nodeId) NODE_DEFAULTS before node after id)
    as (nodeMap & Hmap & Hentry).
  - done.
  - apply Forall_forall. intros n _. by exists (nodeId n).
  - unfold total. by rewrite Hnode.
  - eapply Forall_impl; [exact Hafter|]. intros n Hn v [= <-]. done.
  - rewrite Object_assign_two in Hentry.
    assert (Hmerged : node ∪ NODE_DEFAULTS = <["id" := id]> NODE_DEFAULTS)
      by (unfold node; by rewrite insert_union_singleton_l).
    rewrite Hmerged in Hentry.
    exists nodeMap. split; [done|]. split.
    + rewrite (_hydrateFromMap_entry node nodeMap (<["id" := id]> NODE_DEFAULTS) _ id);
        [|unfold total; by rewrite Hnode|done].
      reflexivity.
    + exists (<["id" := id]> NODE_DEFAULTS ∪ positionNode).
      split; [|split; [done|]].
      * apply (_hydrateFromMap_entry _ _ _ _ id); [unfold total; by rewrite Hpos|done].
      * repeat split; apply lookup_union_Some_l;
          (rewrite lookup_insert_eq || rewrite lookup_insert_ne by done); done.
Qed.

(** C9: in a list of nodes (resp. links) where several items share an id,
    [_mapItemsById] returns a map, raising nothing, whose entry for that id
    is the merged record of the last item with the id; the earlier ones
    leave no trace.  For links, every link has endpoints to read an id
    from. *)
Theorem mapItemsById_last_write_wins :
  (forall (before after : list obj) (node : obj),
     Forall (fun n => ToString (nodeId n) <> ToString (nodeId node)) after ->
     exists nodeMap,
       _mapItemsById (before ++ node :: after) (total nodeId) NODE_DEFAULTS = Ok nodeMap /\
       nodeMap !! ToString (nodeId node)
         = Some (VObj (Object_assign ∅ [VObj NODE_DEFAULTS; VObj node]))) /\
  (forall (before after : list obj) (link : obj) (id : value),
     Forall (fun l => exists v, linkId l = Ok v) (before ++ link :: after) ->
     linkId link = Ok id ->
     Forall (fun l => forall v, linkId l = Ok v -> ToString v <> ToString id) after ->
     exists linkMap,
       _mapItemsById (before ++ link :: after) linkId LINK_DEFAULTS = Ok linkMap /\
       linkMap !! ToString id
         = Some (VObj (Object_assign ∅ [VObj LINK_DEFAULTS; VObj link]))).
Proof.
  split.
  - intros before after node Hafter.
    apply (_mapItemsById_last _ (total nodeId) NODE_DEFAULTS before node after (nodeId node)).
    + done.
    + apply Forall_forall. intros n _. by exists (nodeId n).
    + done.
    + eapply Forall_impl; [exact Hafter|]. intros n Hn v [= <-]. done.
  - intros before after link id Hall Hid Hafter.
    by apply (_mapItemsById_last _ linkId LINK_DEFAULTS before link after id).
Qed.

End IdentifierClaims.

(** ** Running and creating a simulation *)

Section Simulation.
Context `{Host} `{ForceLibrary}.

Lemma invoke_live (simulation : nat) (m : method) (w : world) (s : Sim) :
  sims w !! simulation = Some s ->
  invoke simulation m w =
    Ok (tt, World (<[simulation := run_method m s]> (sims w))
                  (calls w ++ [(simulation, m)])).
Proof. intros Hs. unfold invoke. by rewrite Hs. Qed.

Lemma update_live (simulation : nat) (f : Sim -> Sim) (w : world) (s : Sim) :
  sims w !! simulation = Some s ->
  update simulation (fun s => Ok (f s)) w =
    Ok (tt, World (<[simulation := f s]> (sims w)) (calls w)).
Proof. intros Hs. unfold update. by rewrite Hs. Qed.

Lemma M_bind_ok {A B : Type} (m : M A) (f : A -> M B) (w w' : world) (a : A) :
  m w = Ok (a, w') -> (x ← m; f x) w = f a w'.
Proof. intros Hm. unfold mbind, M_bind. by rewrite Hm. Qed.

Lemma M_bind_throw {A B : Type} (m : M A) (f : A -> M B) (w : world) (e : exn) :
  m w = Throw e -> (x ← m; f x) w = Throw e.
Proof. intros Hm. unfold mbind, M_bind. by rewrite Hm. Qed.

(** The loop from counter [i]: [steps - i] calls of [tick], nothing else. *)
Lemma while_loop_ticks (simulation steps n : nat) : forall (i : nat) (w : world) (s : Sim),
  steps - i = n ->
  sims w !! simulation = Some s ->
  while_loop simulation steps i w =
    Ok (tt, World (<[simulation := Nat.iter n tick s]> (sims w))
                  (calls w ++ replicate n (simulation, Tick))).
Proof.
  induction n as [|n IH]; intros i w s Hn Hs; simp while_loop.
  - destruct (lt_dec i steps) as [Hlt|Hge]; [lia|]. cbn.
    rewrite insert_id by done. rewrite app_nil_r. by destruct w.
  - destruct (lt_dec i steps) as [Hlt|Hge]; [|lia]. cbn -[Nat.iter].
    rewrite (M_bind_ok _ _ _ _ _ (invoke_live _ Tick _ _ Hs)).
    rewrite (IH (S i) _ (tick s)); [| lia | cbn; by rewrite lookup_insert_eq ].
    rewrite Nat.iter_succ_r. cbn [sims calls run_method].
    by rewrite insert_insert_eq, <- app_assoc.
Qed.

(** C1: [runSimulation(simulation, steps)] on a live simulation returns
    normally with the reference it was given; the calls it made on the
    simulation are, in order, one [restart], exactly [steps] times [tick]
    (300 times when [steps] is omitted) and one final [stop], and the
    simulation's state is the result of exactly those calls. *)
Theorem runSimulation_restart_ticks_stop
    (w : world) (simulation : nat) (s : Sim) (steps : option nat) :
  sims w !! simulation = Some s ->
  let n := default 300 steps in
  runSimulation simulation steps w =
    Ok (simulation,
        World (<[simulation := stop (Nat.iter n tick (restart s))]> (sims w))
              (calls w ++ [(simulation, Restart)] ++ replicate n (simulation, Tick)
                       ++ [(simulation, Stop)])).
Proof.
  intros Hs n. unfold runSimulation. fold n.
  rewrite (M_bind_ok _ _ _ _ _ (invoke_live _ Restart _ _ Hs)).
  erewrite M_bind_ok;
    [|apply (while_loop_ticks simulation n n 0 _ (restart s));
       [lia|cbn; by rewrite lookup_insert_eq]].
  erewrite M_bind_ok; [|apply invoke_live; cbn; by rewrite lookup_insert_eq].
  cbn. rewrite !insert_insert_eq. by rewrite <- !app_assoc.
Qed.

(** Setting the alpha factors keeps the simulation live and logs nothing. *)
Lemma forEach_factors_live (options : Options) (simulation : nat) (names : list string) :
  forall (w : world) (s : Sim),
  sims w !! simulation = Some s ->
  exists s' : Sim,
    forEach names (fun alphaFactorName =>
      match attrs options !! alphaFactorName with
      | Some v => update simulation (fun s => Ok (set_factor alphaFactorName v s))
      | None => mret tt
      end) w
    = Ok (tt, World (<[simulation := s']> (sims w)) (calls w)).
Proof.
  induction names as [|name names IH]; intros w s Hs.
  - exists s. cbn. rewrite insert_id by done. by destruct w.
  - cbn [forEach]. destruct (attrs options !! name) as [v|].
    + rewrite (M_bind_ok _ _ _ _ _ (update_live _ (set_factor name v) _ _ Hs)).
      destruct (IH (World (<[simulation := set_factor name v s]> (sims w)) (calls w))
                   (set_factor name v s)) as [s' Hs']; [cbn; by rewrite lookup_insert_eq|].
      exists s'. rewrite Hs'. cbn. by rewrite insert_insert_eq.
    + destruct (IH w s Hs) as [s' Hs']. exists s'. by rewrite <- Hs'.
Qed.

(** Up to the point where the graph data is read, [createSimulation] cannot
    raise: it reaches the read of [options.data.nodes] with the new
    simulation, configured, under a fresh reference. *)
Lemma createSimulation_reads_data (options : Options) (w : world) :
  let simulation := fresh (dom (sims w)) in
  exists configured : Sim,
    createSimulation options w =
      (data_nodes ← lift (Get (prop (attrs options) "data") "nodes");
       seeds ← lift (array_map data_nodes copy_node);
       _ ← update simulation (fun s => Ok (set_nodes seeds s));
       data_links ← lift (Get (prop (attrs options) "data") "links");
       link_seeds ← lift (array_map data_links copy_link);
       _ ← update simulation (set_links link_seeds);
       mret simulation) (World (<[simulation := configured]> (sims w)) (calls w)).
Proof.
  intros simulation. unfold createSimulation.
  set (s0 := force_center _ _ _).
  set (w0 := World (<[simulation := s0]> (sims w)) (calls w)).
  assert (Halloc : alloc s0 w = Ok (simulation, w0)) by done.
  rewrite (M_bind_ok _ _ _ _ _ Halloc).
  destruct (forEach_factors_live options simulation ALPHA_FACTORS w0 s0) as [s1 Hs1];
    [cbn; by rewrite lookup_insert_eq|].
  rewrite (M_bind_ok _ _ _ _ _ Hs1). cbn [sims calls w0]. rewrite insert_insert_eq.
  destruct (chargeStrength options) as [f|].
  - erewrite M_bind_ok;
      [|apply (update_live _ (charge_strength f) _ s1); cbn; by rewrite lookup_insert_eq].
    cbn [sims calls]. rewrite insert_insert_eq. by exists (charge_strength f s1).
  - by exists s1.
Qed.

(** Without a [data] key, [createSimulation] raises. *)
Lemma createSimulation_without_data (options : Options) (w : world) :
  prop (attrs options) "data" = VUndefined ->
  createSimulation options w =
    Throw (TypeError "Cannot read property 'nodes' of undefined").
Proof.
  intros Hdata.
  destruct (createSimulation_reads_data options w) as (configured & ->).
  by rewrite Hdata.
Qed.

Lemma copy_node_ok (node : value) :
  nullish node = false -> copy_node node = Ok (node_copy node).
Proof. by destruct node. Qed.

Lemma copy_link_ok (link : value) :
  nullish link = false -> copy_link link = Ok (link_copy link).
Proof. by destruct link. Qed.

Lemma map_array_ok {A B : Type} (f : A -> result B) (g : A -> B) (items : list A) :
  Forall (fun item => f item = Ok (g item)) items ->
  map_array f items = Ok (g <$> items).
Proof.
  induction 1 as [|item items Hitem _ IH]; [done|]. cbn. by rewrite Hitem, IH.
Qed.

(** With the graph data under [options.data], [createSimulation] hands the
    library copies of the records, holding only [id] and [radius] for a
    node and only [source], [target] and [value] for a link, under a fresh
    reference; it returns that reference unless the library rejects the
    links.  Nothing else of the world changes. *)
Theorem createSimulation_seeds_copies (options : Options) (w : world) (data : obj)
    (data_nodes data_links : list value) :
  prop (attrs options) "data" = VObj data ->
  prop data "nodes" = VArr data_nodes ->
  prop data "links" = VArr data_links ->
  Forall (fun node => nullish node = false) data_nodes ->
  Forall (fun link => nullish link = false) data_links ->
  exists (simulation : nat) (configured : Sim),
    sims w !! simulation = None /\
    createSimulation options w =
      match set_links (link_copy <$> data_links)
                      (set_nodes (node_copy <$> data_nodes) configured) with
      | Ok seeded => Ok (simulation, World (<[simulation := seeded]> (sims w)) (calls w))
      | Throw e => Throw e
      end.
Proof.
  intros Hdata Hnodes Hlinks Hns Hls.
  destruct (createSimulation_reads_data options w) as (configured & ->).
  exists (fresh (dom (sims w))), configured.
  split; [apply not_elem_of_dom, is_fresh|].
  rewrite Hdata. cbn [Get own_props]. rewrite Hnodes, Hlinks.
  erewrite M_bind_ok; [|reflexivity].
  erewrite M_bind_ok; cycle 1.
  { unfold array_map. rewrite (map_array_ok copy_node node_copy); [reflexivity|].
    eapply Forall_impl; [exact Hns|]. apply copy_node_ok. }
  erewrite M_bind_ok; [|apply update_live; cbn; by rewrite lookup_insert_eq].
  erewrite M_bind_ok; [|reflexivity].
  erewrite M_bind_ok; cycle 1.
  { unfold array_map. rewrite (map_array_ok copy_link link_copy); [reflexivity|].
    eapply Forall_impl; [exact Hls|]. apply copy_link_ok. }
  cbn [sims calls]. rewrite insert_insert_eq.
  unfold mbind, M_bind, update. cbn [sims calls]. rewrite lookup_insert_eq.
  destruct (set_links _ _) as [seeded|e]; [|done].
  cbn. by rewrite insert_insert_eq.
Qed.

(** C2, at properties with top-level [nodes] and [links]: [createSimulation]
    reads [options.data.nodes]; [options.data] is [undefined], so the read
    raises a [TypeError] and no simulation is returned.  The renderer's own
    path, [_getSimulation(props)] and [ForceDirectedGraph(props)] with the
    default properties applied, raises the same error. *)
Theorem createSimulation_top_level_data_raises (w : world) :
  createSimulation top_level_options w
    = Throw (TypeError "Cannot read property 'nodes' of undefined") /\
  _getSimulation top_level_props w
    = Throw (TypeError "Cannot read property 'nodes' of undefined") /\
  ForceDirectedGraph (with_defaultProps top_level_props) w
    = Throw (TypeError "Cannot read property 'nodes' of undefined").
Proof.
  split; [by apply createSimulation_without_data|]. split.
  - unfold _getSimulation. cbn [simulationFactory top_level_props].
    apply M_bind_throw. by apply createSimulation_without_data.
  - unfold ForceDirectedGraph.
    erewrite M_bind_ok; [|reflexivity].
    erewrite M_bind_ok; [|reflexivity].
    apply M_bind_throw. unfold _getSimulation. cbn [simulationFactory with_defaultProps].
    apply M_bind_throw. by apply createSimulation_without_data.
Qed.

End Simulation.

(** ** The interactive overlay: selection *)

Section Selection.
Context `{Host} `{ForceLibrary}.

Lemma onClickNode_deselect (props : Props) (state : State) (node : obj) :
  is_focus (selectedNode state) node = true ->
  onClickNode props state node =
    ({| hoveredNode := hoveredNode state; selectedNode := None |},
     [Call "onDeselectNode" node]).
Proof.
  unfold is_focus, onClickNode. destruct (selectedNode state) as [previous|]; [|done].
  by intros ->.
Qed.

Lemma onClickNode_select (props : Props) (state : State) (node : obj) :
  is_focus (selectedNode state) node = false ->
  onClickNode props state node =
    ({| hoveredNode := hoveredNode state; selectedNode := Some node |},
     [Call "onSelectNode" node]).
Proof.
  unfold is_focus, onClickNode. destruct (selectedNode state) as [previous|]; [|done].
  by intros ->.
Qed.

(** Clicking a circle: [onClickNode], then the caller's [onClickNode]. *)
Lemma fire_click_node (props : Props) (state : State) (node : obj) :
  fire props (Call "onClickNode" node) state =
    ((onClickNode props state node).1,
     (onClickNode props state node).2 ++
       if decide ("onClickNode" ∈ callbacks props) then [Call "onClickNode" node] else []).
Proof.
  unfold fire, handler, _createEventHanlder, method_named. cbn -[onClickNode].
  by destruct (onClickNode props state node).
Qed.

(** Clicking a label: [onClickNode] as well, then the caller's [onClickLabel]. *)
Lemma fire_click_label (props : Props) (state : State) (node : obj) :
  fire props (Call "onClickLabel" node) state =
    ((onClickNode props state node).1,
     (onClickNode props state node).2 ++
       if decide ("onClickLabel" ∈ callbacks props) then [Call "onClickLabel" node] else []).
Proof.
  unfold fire, handler, _createEventHanlder, method_named. cbn -[onClickNode].
  by destruct (onClickNode props state node).
Qed.

Lemma selection_events_click (props : Props) (state : State) (node : obj)
    (forwarded : list call) :
  Forall (fun c => callee c <> "onSelectNode" /\ callee c <> "onDeselectNode") forwarded ->
  selection_events ((onClickNode props state node).2 ++ forwarded)
    = (onClickNode props state node).2.
Proof.
  intros Hfwd. unfold selection_events. rewrite filter_app.
  assert (Hnil : filter (fun c => callee c = "onSelectNode" \/ callee c = "onDeselectNode")
                   forwarded = []).
  { induction Hfwd as [|c l [Hc1 Hc2] _ IH]; [done|].
    rewrite filter_cons_False; [done|]. intros [?|?]; done. }
  rewrite Hnil, app_nil_r.
  unfold onClickNode. destruct (selectedNode state) as [previous|]; [|done].
  by destruct (strict_eq _ _).
Qed.

(** C3: a click on a node whose id equals the id of the node already
    selected clears the selection and invokes [onDeselectNode] once, with
    the clicked node; any other click selects the clicked node and invokes
    [onSelectNode] with it.  So two clicks on one node, not selected before,
    invoke select then deselect, once each; a click on A then on B, of
    another id, invokes select(A) then select(B), never deselect; and a click
    on a node's label moves the state and invokes the selection callbacks as
    a click on its circle does. *)
Theorem click_selects_or_deselects (props : Props) (state : State) (node : obj) :
  (is_focus (selectedNode state) node = true ->
   onClickNode props state node =
     ({| hoveredNode := hoveredNode state; selectedNode := None |},
      [Call "onDeselectNode" node])) /\
  (is_focus (selectedNode state) node = false ->
   onClickNode props state node =
     ({| hoveredNode := hoveredNode state; selectedNode := Some node |},
      [Call "onSelectNode" node])) /\
  (is_focus (selectedNode state) node = false ->
   strict_eq (nodeId node) (nodeId node) = true ->
   let '(state1, first) := fire props (Call "onClickNode" node) state in
   let '(state2, second) := fire props (Call "onClickNode" node) state1 in
   selection_events (first ++ second)
     = [Call "onSelectNode" node; Call "onDeselectNode" node] /\
   selectedNode state2 = None) /\
  (forall other : obj,
   is_focus (selectedNode state) node = false ->
   strict_eq (nodeId node) (nodeId other) = false ->
   let '(state1, first) := fire props (Call "onClickNode" node) state in
   let '(state2, second) := fire props (Call "onClickNode" other) state1 in
   selection_events (first ++ second)
     = [Call "onSelectNode" node; Call "onSelectNode" other] /\
   selectedNode state2 = Some other) /\
  (fire props (Call "onClickLabel" node) state).1
    = (fire props (Call "onClickNode" node) state).1 /\
  selection_events (fire props (Call "onClickLabel" node) state).2
    = selection_events (fire props (Call "onClickNode" node) state).2 /\
  selection_events (fire props (Call "onClickNode" node) state).2
    = (onClickNode props state node).2.
Proof.
  split; [apply onClickNode_deselect|]. split; [apply onClickNode_select|].
  assert (Hfwd : forall (fn : string) (n : obj),
            fn <> "onSelectNode" -> fn <> "onDeselectNode" ->
            Forall (fun c => callee c <> "onSelectNode" /\ callee c <> "onDeselectNode")
              (if decide (fn ∈ callbacks props) then [Call fn n] else [])).
  { intros fn n Hs Hd. destruct (decide (fn ∈ callbacks props)); repeat constructor; done. }
  split; [|split; [|split; [|split]]].
  - intros Hnot Hrefl. rewrite fire_click_node, (onClickNode_select _ _ _ Hnot). cbn [fst snd].
    rewrite fire_click_node.
    rewrite (onClickNode_deselect props _ node) by (cbn; done). cbn [fst snd selectedNode].
    split; [|done].
    destruct (decide ("onClickNode" ∈ callbacks props)); reflexivity.
  - intros other Hnot Hother.
    rewrite fire_click_node, (onClickNode_select _ _ _ Hnot). cbn [fst snd].
    rewrite fire_click_node.
    rewrite (onClickNode_select props _ other) by (cbn; done). cbn [fst snd selectedNode].
    split; [|done].
    destruct (decide ("onClickNode" ∈ callbacks props)); reflexivity.
  - by rewrite fire_click_label, fire_click_node.
  - rewrite fire_click_label, fire_click_node. cbn [fst snd].
    by rewrite !(selection_events_click props state node) by (by apply Hfwd).
  - rewrite fire_click_node. cbn [snd].
    by rewrite (selection_events_click props state node) by (by apply Hfwd).
Qed.


End Selection.

(** ** The interactive overlay: styling *)

Section Styling.
Context `{Host} `{ForceLibrary}.

(** The test of the node opacity's conditional says the node is dimmed. *)
Lemma dimming_test (state : State) (node : obj) :
  ToBoolean
    (js_and
       (js_and
          (js_or (node_value (selectedNode state)) (node_value (hoveredNode state)))
          (focus_differs (selectedNode state) node))
       (focus_differs (hoveredNode state) node))
  = dimmed state node.
Proof.
  unfold dimmed, focused, is_focus, focus_differs, node_value, js_and, js_or.
  destruct (selectedNode state) as [selected|], (hoveredNode state) as [hovered|]; cbn;
    repeat (match goal with |- context [strict_eq ?a ?b] => destruct (strict_eq a b) end; cbn);
    reflexivity.
Qed.

(** The test of the link opacity's conditional says some node is focused. *)
Lemma focus_test (state : State) :
  ToBoolean (js_or (node_value (selectedNode state)) (node_value (hoveredNode state)))
  = focused state.
Proof.
  unfold focused, node_value, js_or.
  by destruct (selectedNode state), (hoveredNode state).
Qed.

(** [showLabel] is truthy exactly for the selected and the hovered node. *)
Lemma showLabel_test (state : State) (node : obj) :
  ToBoolean (js_or (focus_matches (selectedNode state) node)
                   (focus_matches (hoveredNode state) node))
  = is_focus (selectedNode state) node || is_focus (hoveredNode state) node.
Proof.
  unfold is_focus, focus_matches, js_or.
  destruct (selectedNode state) as [selected|], (hoveredNode state) as [hovered|]; cbn;
    repeat (match goal with |- context [strict_eq ?a ?b] => destruct (strict_eq a b) end; cbn);
    reflexivity.
Qed.

Lemma style_node_overlay (props : Props) (state : State) (node : obj) :
  style_node props state node = node_overlay props state node ∪ node.
Proof.
  unfold style_node, node_overlay. rewrite Object_assign_two, dimming_test. done.
Qed.

Lemma style_node_opacity (props : Props) (state : State) (node : obj) :
  style_node props state node !! "opacity" =
    Some (if dimmed state node
          then _applyOpacity (prop (attrs props) "opacityFactor") (prop node "opacity")
          else prop node "opacity").
Proof. rewrite style_node_overlay. by apply lookup_union_Some_l. Qed.

Lemma style_node_showLabel (props : Props) (state : State) (node : obj) :
  style_node props state node !! "showLabel" =
    Some (js_or (focus_matches (selectedNode state) node)
                (focus_matches (hoveredNode state) node)).
Proof. rewrite style_node_overlay. by apply lookup_union_Some_l. Qed.

(** Styling leaves the id alone. *)
Lemma style_node_id (props : Props) (state : State) (node : obj) :
  nodeId (style_node props state node) = nodeId node.
Proof.
  unfold nodeId. rewrite style_node_overlay. by apply prop_union_r.
Qed.

Lemma style_link_opacity (props : Props) (state : State) (link : obj) :
  style_link props state link !! "opacity" =
    Some (if focused state
          then _applyOpacity (prop (attrs props) "opacityFactor") (prop link "opacity")
          else prop link "opacity").
Proof.
  unfold style_link. rewrite Object_assign_two, focus_test.
  apply lookup_union_Some_l. by rewrite lookup_singleton_eq.
Qed.

(** Every other field of a link is kept. *)
Lemma style_link_other (props : Props) (state : State) (link : obj) (k : string) :
  k <> "opacity" -> style_link props state link !! k = link !! k.
Proof.
  intros Hk. unfold style_link. rewrite Object_assign_two.
  rewrite lookup_union_r; [done|]. by rewrite lookup_singleton_ne.
Qed.

(** C5: every link's styled opacity is its own opacity divided by
    [opacityFactor] as soon as some node is selected or hovered, whichever
    link it is and whichever node is focused; with no node selected or
    hovered it is the link's own opacity.  The other fields are kept. *)
Theorem link_opacity_dims_together (props : Props) (state : State) :
  let opacityFactor := prop (attrs props) "opacityFactor" in
  length (styledLinks props state) = length (links props) /\
  forall (i : nat) (link : obj),
    links props !! i = Some link ->
    exists styled : obj,
      styledLinks props state !! i = Some styled /\
      (forall k : string, k <> "opacity" -> styled !! k = link !! k) /\
      (focused state = true ->
       prop styled "opacity" = _applyOpacity opacityFactor (prop link "opacity") /\
       forall x f : float,
         prop link "opacity" = VNum x -> opacityFactor = VNum f ->
         prop styled "opacity" = VNum (x / f)%float) /\
      (focused state = false -> prop styled "opacity" = prop link "opacity").
Proof.
  intros opacityFactor. unfold styledLinks. split; [by rewrite length_fmap|].
  intros i link Hi. exists (style_link props state link).
  split; [by rewrite list_lookup_fmap, Hi|].
  split; [intros k Hk; by apply style_link_other|].
  split.
  - intros Hfocus. rewrite (prop_lookup _ _ _ (style_link_opacity props state link)), Hfocus.
    split; [done|]. intros x f -> Hf. fold opacityFactor. by rewrite Hf.
  - intros Hfocus. by rewrite (prop_lookup _ _ _ (style_link_opacity props state link)), Hfocus.
Qed.

End Styling.

(** ** The static renderer *)

Section Rendering.
Context `{Host} `{ForceLibrary}.

Lemma M_bind_inv {A B : Type} (m : M A) (f : A -> M B) (w w' : world) (b : B) :
  (x ← m; f x) w = Ok (b, w') ->
  exists (a : A) (w1 : world), m w = Ok (a, w1) /\ f a w1 = Ok (b, w').
Proof.
  unfold mbind, M_bind. destruct (m w) as [[a w1]|e]; [|done]. intros Hf. by exists a, w1.
Qed.

Lemma lift_inv {A : Type} (r : result A) (w w' : world) (a : A) :
  lift r w = Ok (a, w') -> r = Ok a /\ w' = w.
Proof. unfold lift. destruct r; [|done]. by intros [= -> ->]. Qed.

Lemma deref_inv (simulation : nat) (w w' : world) (s : Sim) :
  deref simulation w = Ok (s, w') -> sims w !! simulation = Some s /\ w' = w.
Proof.
  unfold deref. destruct (sims w !! simulation); [|done]. by intros [= -> ->].
Qed.

Lemma ToBoolean_js_or (a b : value) :
  ToBoolean (js_or a b) = ToBoolean a || ToBoolean b.
Proof. unfold js_or. by destruct (ToBoolean a) eqn:Ha; [rewrite Ha|]. Qed.

(** Hydration by node id cannot raise. *)
Lemma _hydrateFromMap_node (positionNode nodeMap : obj) :
  _hydrateFromMap positionNode (total nodeId) nodeMap = Ok (hydrated nodeMap positionNode).
Proof.
  unfold _hydrateFromMap, hydrated, total, Object_assign. cbn.
  by rewrite (right_id_L ∅ (∪)).
Qed.

Lemma push_node_ok (props : Props) (nodeMap : obj) (offset : LabelOffset)
    (elements : list circle * list text) (positionNode : obj) :
  labelOffset props = Some offset ->
  let node := hydrated nodeMap positionNode in
  push_node props nodeMap elements positionNode =
    Ok (elements.1 ++ [circle_element positionNode node],
        elements.2 ++ if labelled props node then [text_element props offset node] else []).
Proof.
  intros Hoffset node. unfold push_node. rewrite _hydrateFromMap_node. cbn.
  fold node. rewrite ToBoolean_js_or. fold (labelled props node).
  destruct (labelled props node); [by rewrite Hoffset|by rewrite app_nil_r].
Qed.

(** The loop over the positional nodes: one circle each, in order, and a
    label for each hydrated node that is [labelled]. *)
Lemma reduce_push_node (props : Props) (nodeMap : obj) (offset : LabelOffset)
    (positionNodes : list obj) :
  labelOffset props = Some offset ->
  forall elements : list circle * list text,
  reduce (push_node props nodeMap) positionNodes elements =
    Ok (elements.1 ++
          ((fun positionNode => circle_element positionNode (hydrated nodeMap positionNode))
             <$> positionNodes),
        elements.2 ++
          (text_element props offset
             <$> filter (fun node => labelled props node = true)
                   (hydrated nodeMap <$> positionNodes))).
Proof.
  intros Hoffset. induction positionNodes as [|positionNode rest IH]; intros elements.
  - cbn. rewrite !app_nil_r. by destruct elements.
  - rewrite reduce_cons, (push_node_ok _ _ offset) by done. cbn [mbind result_bind].
    rewrite IH. cbn [fst snd]. rewrite !fmap_cons, filter_cons.
    destruct (labelled props (hydrated nodeMap positionNode)) eqn:Hlab.
    + rewrite decide_True by done. by rewrite <- !app_assoc.
    + rewrite decide_False by done. by rewrite app_nil_r, <- !app_assoc.
Qed.

(** What a completed render holds in its nodes and labels layers. *)
Lemma ForceDirectedGraph_layers (props : Props) (offset : LabelOffset)
    (w w1 w' : world) (simulation : nat) (settled : Sim) (tree : svg) :
  labelOffset props = Some offset ->
  _getSimulation props w = Ok (simulation, w1) ->
  sims w1 !! simulation = Some settled ->
  ForceDirectedGraph props w = Ok (tree, w') ->
  exists nodeMap : obj,
    _mapItemsById (nodes props) (total nodeId) NODE_DEFAULTS = Ok nodeMap /\
    svg_nodes tree =
      ((fun positionNode => circle_element positionNode (hydrated nodeMap positionNode))
         <$> get_nodes settled) /\
    svg_labels tree =
      (text_element props offset
         <$> filter (fun node => labelled props node = true)
               (hydrated nodeMap <$> get_nodes settled)).
Proof.
  intros Hoffset Hsim Hsettled Hrender. unfold ForceDirectedGraph in Hrender.
  apply M_bind_inv in Hrender as (nodeMap & w2 & HnodeMap & Hrender).
  apply lift_inv in HnodeMap as [HnodeMap ->].
  apply M_bind_inv in Hrender as (linkMap & w2 & HlinkMap & Hrender).
  apply lift_inv in HlinkMap as [HlinkMap ->].
  rewrite (M_bind_ok _ _ _ _ _ Hsim) in Hrender.
  apply M_bind_inv in Hrender as (settled' & w2 & Hderef & Hrender).
  apply deref_inv in Hderef as [Hderef ->].
  assert (settled' = settled) as -> by congruence.
  apply M_bind_inv in Hrender as (elements & w2 & Helements & Hrender).
  apply lift_inv in Helements as [Helements ->].
  rewrite (reduce_push_node _ _ offset) in Helements by done.
  injection Helements as <-.
  apply M_bind_inv in Hrender as (settled' & w2 & Hderef' & Hrender).
  apply M_bind_inv in Hrender as (linkElements & w3 & _ & Hrender).
  injection Hrender as <- _.
  exists nodeMap. split; [done|]. by split.
Qed.

(** The line drawn for a positional link runs between the positions of its
    endpoints and is as wide as the square root of the hydrated link's
    [value]: 2 for a value of 4. *)
Theorem link_stroke_width (linkMap : obj) (linkElements drawn : list line)
    (positionLink : obj) :
  push_link linkMap linkElements positionLink = Ok drawn ->
  exists (link : obj) (l : line),
    _hydrateFromMap positionLink linkId linkMap = Ok link /\
    drawn = linkElements ++ [l] /\
    Get (prop positionLink "source") "x" = Ok (x1 l) /\
    Get (prop positionLink "source") "y" = Ok (y1 l) /\
    Get (prop positionLink "target") "x" = Ok (x2 l) /\
    Get (prop positionLink "target") "y" = Ok (y2 l) /\
    line_strokeWidth l = Math_sqrt (prop link "value") /\
    (prop link "value" = VNum 4%float -> line_strokeWidth l = VNum 2%float).
Proof.
  unfold push_link. intros Hdrawn.
  destruct (_hydrateFromMap positionLink linkId linkMap) as [link|e]; [|done].
  cbn in Hdrawn.
  destruct (linkId link) as [key|e]; [|done]. cbn in Hdrawn.
  destruct (Get (prop positionLink "source") "x") as [sx|e]; [|done]. cbn in Hdrawn.
  destruct (Get (prop positionLink "source") "y") as [sy|e]; [|done]. cbn in Hdrawn.
  destruct (Get (prop positionLink "target") "x") as [tx|e]; [|done]. cbn in Hdrawn.
  destruct (Get (prop positionLink "target") "y") as [ty|e]; [|done]. cbn in Hdrawn.
  injection Hdrawn as <-. eexists link, _. split; [done|]. split; [done|].
  cbn. repeat (split; [done|]). by intros ->.
Qed.

End Rendering.

(** ** The overlay seen through the renderer *)

Section View.
Context `{Host} `{ForceLibrary}.

Lemma resolve_defaults_prop (defaults attrs : obj) (k : string) :
  prop (resolve_defaults defaults attrs) k =
    match prop attrs k with
    | VUndefined => prop defaults k
    | v => v
    end.
Proof.
  unfold prop, resolve_defaults. rewrite lookup_union_with.
  destruct (attrs !! k) as [[]|], (defaults !! k); done.
Qed.

(** The renderer sees the caller's [showLabels], or [false] by default. *)
Lemma view_showLabels (props : Props) (state : State) :
  ToBoolean (prop (attrs (with_defaultProps
                            (render (with_interactive_defaultProps props) state)))
                  "showLabels")
  = ToBoolean (prop (attrs props) "showLabels").
Proof.
  cbn [attrs options with_defaultProps render with_interactive_defaultProps].
  rewrite resolve_defaults_prop.
  assert (Hdel : forall a : obj, prop (delete "opacityFactor" a) "showLabels" = prop a "showLabels")
    by (intros a; unfold prop; by rewrite lookup_delete_ne).
  rewrite Hdel, resolve_defaults_prop.
  by destruct (prop (attrs props) "showLabels").
Qed.

(** [opacityFactor] is the caller's, or 4 by default. *)
Lemma view_opacityFactor (props : Props) :
  prop (attrs (with_interactive_defaultProps props)) "opacityFactor" =
    match prop (attrs props) "opacityFactor" with
    | VUndefined => VNum 4%float
    | v => v
    end.
Proof.
  cbn [attrs options with_interactive_defaultProps]. by rewrite resolve_defaults_prop.
Qed.

(** The last element of a list that satisfies a predicate. *)
Lemma last_such {A : Type} (P : A -> Prop) `{!forall x, Decision (P x)} (l : list A) :
  Exists P l ->
  exists (before : list A) (x : A) (after : list A),
    l = before ++ x :: after /\ P x /\ Forall (fun y => ~ P y) after.
Proof.
  induction l as [|a l IH]; intros Hex; [by apply Exists_nil in Hex|].
  destruct (decide (Exists P l)) as [Hl|Hl].
  - destruct (IH Hl) as (before & x & after & -> & Hx & Hafter).
    by exists (a :: before), x, after.
  - apply Exists_cons in Hex as [Ha|Hl']; [|done].
    exists [], a, l. split; [done|]. split; [done|].
    apply Forall_forall. intros y Hy Hp. apply Hl, Exists_exists. by exists y.
Qed.

(** The entry of the node map for a node that is the last of its id. *)
Lemma nodeMap_styled_entry (props : Props) (state : State)
    (before after : list obj) (node nodeMap : obj) :
  nodes props = before ++ node :: after ->
  Forall (fun n => ToString (nodeId n) <> ToString (nodeId node)) after ->
  _mapItemsById (styledNodes props state) (total nodeId) NODE_DEFAULTS = Ok nodeMap ->
  nodeMap !! ToString (nodeId node) = Some (VObj (style_node props state node ∪ NODE_DEFAULTS)).
Proof.
  intros Hnodes Hafter Hmap.
  destruct (_mapItemsById_last (styledNodes props state) (total nodeId) NODE_DEFAULTS
              (style_node props state <$> before) (style_node props state node)
              (style_node props state <$> after) (nodeId node))
    as (m & Hm & Hentry).
  - unfold styledNodes. by rewrite Hnodes, fmap_app, fmap_cons.
  - apply Forall_forall. intros n _. by exists (nodeId n).
  - unfold total. by rewrite style_node_id.
  - apply Forall_fmap. eapply Forall_impl; [exact Hafter|].
    intros n Hn v [= <-]. by rewrite style_node_id.
  - rewrite Hmap in Hm. injection Hm as <-. by rewrite Object_assign_two in Hentry.
Qed.

(** A positional node of that id is hydrated with the styled node laid over
    the defaults, laid over the positional node. *)
Lemma hydrated_styled (props : Props) (state : State)
    (before after : list obj) (node nodeMap positionNode : obj) :
  nodes props = before ++ node :: after ->
  Forall (fun n => ToString (nodeId n) <> ToString (nodeId node)) after ->
  _mapItemsById (styledNodes props state) (total nodeId) NODE_DEFAULTS = Ok nodeMap ->
  nodeId positionNode = nodeId node ->
  hydrated nodeMap positionNode = (style_node props state node ∪ NODE_DEFAULTS) ∪ positionNode.
Proof.
  intros Hnodes Hafter Hmap Hid. unfold hydrated. rewrite Hid.
  by rewrite (prop_lookup _ _ _ (nodeMap_styled_entry _ _ _ _ _ _ Hnodes Hafter Hmap)).
Qed.

Lemma hydrated_styled_prop (props : Props) (state : State)
    (before after : list obj) (node nodeMap positionNode : obj) (k : string) :
  nodes props = before ++ node :: after ->
  Forall (fun n => ToString (nodeId n) <> ToString (nodeId node)) after ->
  _mapItemsById (styledNodes props state) (total nodeId) NODE_DEFAULTS = Ok nodeMap ->
  nodeId positionNode = nodeId node ->
  is_Some (style_node props state node !! k) ->
  prop (hydrated nodeMap positionNode) k = prop (style_node props state node) k.
Proof.
  intros Hnodes Hafter Hmap Hid Hk.
  rewrite (hydrated_styled _ _ _ _ _ _ _ Hnodes Hafter Hmap Hid).
  rewrite prop_union_l; [by apply prop_union_l|].
  destruct Hk as [v Hv]. exists v. by apply lookup_union_Some_l.
Qed.

(** In a completed view, the circle drawn for a positional node carrying the
    id of [node], the last node of that id, has the styled node's opacity. *)
Lemma view_circle (props : Props) (state : State) (before after : list obj) (node : obj)
    (w w1 w' : world) (simulation : nat) (settled : Sim) (tree : svg)
    (i : nat) (positionNode : obj) :
  let overlay := with_interactive_defaultProps props in
  nodes props = before ++ node :: after ->
  Forall (fun n => ToString (nodeId n) <> ToString (nodeId node)) after ->
  _getSimulation (with_defaultProps (render overlay state)) w = Ok (simulation, w1) ->
  sims w1 !! simulation = Some settled ->
  view props state w = Ok (tree, w') ->
  get_nodes settled !! i = Some positionNode ->
  nodeId positionNode = nodeId node ->
  exists c : circle,
    svg_nodes tree !! i = Some c /\
    circle_opacity c = prop (style_node overlay state node) "opacity".
Proof.
  intros overlay Hnodes Hafter Hsim Hsettled Hview Hi Hid.
  destruct (ForceDirectedGraph_layers (with_defaultProps (render overlay state))
              (default default_labelOffset (labelOffset props))
              _ _ _ _ _ _ eq_refl Hsim Hsettled Hview) as (nodeMap & Hmap & Hcircles & _).
  exists (circle_element positionNode (hydrated nodeMap positionNode)).
  split; [by rewrite Hcircles, list_lookup_fmap, Hi|].
  cbn [circle_opacity circle_element].
  apply (hydrated_styled_prop overlay state before after); try done.
  by rewrite style_node_opacity.
Qed.

End View.

(** ** Opacity and labels *)

Section OpacityAndLabels.
Context `{Host} `{ForceLibrary}.

Lemma dimmed_while_hovering (state : State) (hovered node : obj) :
  is_focus (selectedNode state) node = false ->
  hoveredNode state = Some hovered ->
  dimmed state node = negb (strict_eq (nodeId hovered) (nodeId node)).
Proof.
  unfold dimmed, focused. intros -> ->. cbn. by destruct (selectedNode state).
Qed.

(** C4: the styled opacity of a node is its own opacity divided by
    [opacityFactor] (4 unless the caller sets it) when the node is dimmed,
    i.e. when some node is selected or hovered and the node's id matches
    neither; otherwise it is the node's own opacity.  With [opacityFactor]
    4, a node of opacity 1 that is not the selected one, and some node
    hovered, the styled opacity and the opacity of the circle drawn for the
    node are 0.25 when the hovered node has another id, and 1 when it is the
    hovered node. *)
Theorem node_opacity_dimming (props : Props) (state : State) (node : obj) :
  let overlay := with_interactive_defaultProps props in
  let opacityFactor := prop (attrs overlay) "opacityFactor" in
  let styled := style_node overlay state node in
  (prop (attrs props) "opacityFactor" = VUndefined -> opacityFactor = VNum 4%float) /\
  (dimmed state node = true ->
   prop styled "opacity" = _applyOpacity opacityFactor (prop node "opacity") /\
   forall x f : float,
     prop node "opacity" = VNum x -> opacityFactor = VNum f ->
     prop styled "opacity" = VNum (x / f)%float) /\
  (dimmed state node = false -> prop styled "opacity" = prop node "opacity") /\
  (forall hovered : obj,
     opacityFactor = VNum 4%float ->
     prop node "opacity" = VNum 1%float ->
     is_focus (selectedNode state) node = false ->
     hoveredNode state = Some hovered ->
     prop styled "opacity" =
       (if strict_eq (nodeId hovered) (nodeId node) then VNum 1%float else VNum 0.25%float) /\
     forall (before after : list obj) (w w1 w' : world) (simulation : nat) (settled : Sim)
            (tree : svg) (i : nat) (positionNode : obj),
       nodes props = before ++ node :: after ->
       Forall (fun n => ToString (nodeId n) <> ToString (nodeId node)) after ->
       _getSimulation (with_defaultProps (render overlay state)) w = Ok (simulation, w1) ->
       sims w1 !! simulation = Some settled ->
       view props state w = Ok (tree, w') ->
       get_nodes settled !! i = Some positionNode ->
       nodeId positionNode = nodeId node ->
       exists c : circle,
         svg_nodes tree !! i = Some c /\
         circle_opacity c =
           (if strict_eq (nodeId hovered) (nodeId node) then VNum 1%float
            else VNum 0.25%float)).
Proof.
  intros overlay opacityFactor styled.
  assert (Hstyled : prop styled "opacity" =
            if dimmed state node then _applyOpacity opacityFactor (prop node "opacity")
            else prop node "opacity")
    by apply prop_lookup, style_node_opacity.
  split; [|split; [|split; [|]]].
  - intros Hfactor. unfold opacityFactor, overlay. by rewrite view_opacityFactor, Hfactor.
  - intros Hdim. rewrite Hstyled, Hdim. split; [done|]. by intros x f -> ->.
  - intros Hdim. by rewrite Hstyled, Hdim.
  - intros hovered Hfactor Hopacity Hsel Hhov.
    assert (Hscenario : prop styled "opacity" =
              if strict_eq (nodeId hovered) (nodeId node) then VNum 1%float
              else VNum 0.25%float).
    { rewrite Hstyled, (dimmed_while_hovering _ hovered) by done.
      rewrite Hfactor, Hopacity. by destruct (strict_eq _ _). }
    split; [done|].
    intros before after w w1 w' simulation settled tree i positionNode
      Hnodes Hafter Hsim Hsettled Hview Hi Hid.
    destruct (view_circle props state before after node w w1 w' simulation settled tree
                i positionNode Hnodes Hafter Hsim Hsettled Hview Hi Hid) as (c & Hc & Hop).
    exists c. split; [done|]. by rewrite Hop.
Qed.

(** C10: for a node with no [opacity] key, the styled node always has one.
    With no node selected or hovered it holds [undefined]; merged over
    [NODE_DEFAULTS] it still holds [undefined], not the default 1, and the
    circle drawn for the node has opacity [undefined].  When the node is
    dimmed, the missing opacity counts as 1 and the key holds
    1 / [opacityFactor]. *)
Theorem missing_opacity_overrides_default (props : Props) (state : State) (node : obj) :
  let overlay := with_interactive_defaultProps props in
  let opacityFactor := prop (attrs overlay) "opacityFactor" in
  let styled := style_node overlay state node in
  node !! "opacity" = None ->
  is_Some (styled !! "opacity") /\
  (focused state = false ->
   styled !! "opacity" = Some VUndefined /\
   NODE_DEFAULTS !! "opacity" = Some (VNum 1%float) /\
   Object_assign ∅ [VObj NODE_DEFAULTS; VObj styled] !! "opacity" = Some VUndefined /\
   forall (before after : list obj) (w w1 w' : world) (simulation : nat) (settled : Sim)
          (tree : svg) (i : nat) (positionNode : obj),
     nodes props = before ++ node :: after ->
     Forall (fun n => ToString (nodeId n) <> ToString (nodeId node)) after ->
     _getSimulation (with_defaultProps (render overlay state)) w = Ok (simulation, w1) ->
     sims w1 !! simulation = Some settled ->
     view props state w = Ok (tree, w') ->
     get_nodes settled !! i = Some positionNode ->
     nodeId positionNode = nodeId node ->
     exists c : circle,
       svg_nodes tree !! i = Some c /\ circle_opacity c = VUndefined) /\
  (dimmed state node = true ->
   styled !! "opacity" = Some (js_div (VNum 1%float) opacityFactor) /\
   forall f : float,
     opacityFactor = VNum f -> styled !! "opacity" = Some (VNum (1 / f)%float)).
Proof.
  intros overlay opacityFactor styled Hmissing.
  pose proof (style_node_opacity overlay state node) as Hstyled. fold styled in Hstyled.
  rewrite (prop_missing _ _ Hmissing) in Hstyled.
  split; [by rewrite Hstyled|]. split.
  - intros Hfocus.
    assert (Hdim : dimmed state node = false) by (unfold dimmed; by rewrite Hfocus).
    rewrite Hdim in Hstyled. split; [done|]. split; [done|]. split.
    + rewrite Object_assign_two. by apply lookup_union_Some_l.
    + intros before after w w1 w' simulation settled tree i positionNode
        Hnodes Hafter Hsim Hsettled Hview Hi Hid.
      destruct (view_circle props state before after node w w1 w' simulation settled tree
                  i positionNode Hnodes Hafter Hsim Hsettled Hview Hi Hid) as (c & Hc & Hop).
      exists c. split; [done|]. rewrite Hop. by apply prop_lookup.
  - intros Hdim. rewrite Hdim in Hstyled. split; [done|]. intros f Hf.
    rewrite Hstyled. fold opacityFactor. by rewrite Hf.
Qed.

(** The keys of the labels drawn for a list of positional nodes, when the
    hydrated nodes keep the positional ids and are labelled as [shown] says. *)
Lemma label_keys (props : Props) (offset : LabelOffset) (nodeMap : obj)
    (shown : obj -> bool) (positionNodes : list obj) :
  Forall (fun positionNode =>
            labelled props (hydrated nodeMap positionNode) = shown positionNode /\
            nodeId (hydrated nodeMap positionNode) = nodeId positionNode) positionNodes ->
  text_key <$> (text_element props offset
                  <$> filter (fun node => labelled props node = true)
                        (hydrated nodeMap <$> positionNodes))
  = (fun positionNode => ToString (nodeId positionNode) +:+ "-label")
      <$> filter (fun positionNode => shown positionNode = true) positionNodes.
Proof.
  induction 1 as [|positionNode rest [Hshown Hid] _ IH]; [done|].
  rewrite fmap_cons, !filter_cons, Hshown.
  destruct (shown positionNode).
  - rewrite !decide_True by done. rewrite !fmap_cons, IH. cbn [text_key text_element].
    by rewrite Hid.
  - rewrite !decide_False by done. exact IH.
Qed.

(** In a view of nodes with string ids, a positional node carrying the id of
    one of them is hydrated to a node of the same id, labelled exactly when
    the id is the selected or the hovered node's. *)
Lemma view_labelled (props : Props) (state : State) (nodeMap positionNode : obj) :
  let overlay := with_interactive_defaultProps props in
  let rendered := with_defaultProps (render overlay state) in
  ToBoolean (prop (attrs props) "showLabels") = false ->
  Forall (fun n => exists s : string, nodeId n = VStr s) (nodes props) ->
  (exists n : obj, n ∈ nodes props /\ nodeId positionNode = nodeId n) ->
  _mapItemsById (styledNodes overlay state) (total nodeId) NODE_DEFAULTS = Ok nodeMap ->
  labelled rendered (hydrated nodeMap positionNode) =
    (is_focus (selectedNode state) positionNode || is_focus (hoveredNode state) positionNode) /\
  nodeId (hydrated nodeMap positionNode) = nodeId positionNode.
Proof.
  intros overlay rendered Hshow Hids (n & Hn & Hpos) Hmap.
  destruct (proj1 (Forall_forall _ _) Hids n Hn) as [s Hs].
  destruct (last_such (fun n' => ToString (nodeId n') = s) (nodes props))
    as (before & node & after & Hnodes & Hkey & Hafter).
  { apply Exists_exists. exists n. split; [done|]. by rewrite Hs. }
  assert (Hnode : nodeId node = VStr s).
  { destruct (proj1 (Forall_forall _ _) Hids node) as [s' Hs'].
    - rewrite Hnodes. apply elem_of_app. right. by left.
    - rewrite Hs' in Hkey |- *. cbn in Hkey. by rewrite Hkey. }
  assert (Hsame : nodeId positionNode = nodeId node) by congruence.
  assert (Hafter' : Forall (fun n' => ToString (nodeId n') <> ToString (nodeId node)) after)
    by (by rewrite Hnode).
  assert (Hfocus : forall focus : option obj, is_focus focus node = is_focus focus positionNode)
    by (intros [f|]; cbn; by rewrite ?Hsame).
  split.
  - unfold labelled. unfold rendered, overlay. rewrite view_showLabels, Hshow. cbn [orb].
    rewrite (hydrated_styled_prop overlay state before after node nodeMap positionNode "showLabel");
      try done; [|by rewrite style_node_showLabel].
    rewrite (prop_lookup _ _ _ (style_node_showLabel overlay state node)).
    by rewrite showLabel_test, !Hfocus.
  - unfold nodeId at 1.
    rewrite (hydrated_styled_prop overlay state before after node nodeMap positionNode "id");
      try done.
    + fold (nodeId (style_node overlay state node)). by rewrite style_node_id.
    + rewrite style_node_overlay, lookup_union_r by done.
      unfold nodeId, prop in Hnode. destruct (node !! "id"); [done|discriminate].
Qed.

(** C7: in a completed render, the labels layer holds one label for each
    hydrated positional node for which [showLabels] or the node's own
    [showLabel] is truthy, and for no other.  Through the overlay, with
    [showLabels] false and nodes with string ids: labels are drawn exactly
    for the positional nodes whose id is the selected or the hovered node's;
    none at all when no node is selected or hovered; and for nodes ["a"] and
    ["b"] with ["a"] hovered, exactly one, the label of ["a"]. *)
Theorem labels_follow_showLabel :
  (forall (props : Props) (offset : LabelOffset) (w w1 w' : world) (simulation : nat)
          (settled : Sim) (tree : svg),
     labelOffset props = Some offset ->
     _getSimulation props w = Ok (simulation, w1) ->
     sims w1 !! simulation = Some settled ->
     ForceDirectedGraph props w = Ok (tree, w') ->
     exists nodeMap : obj,
       _mapItemsById (nodes props) (total nodeId) NODE_DEFAULTS = Ok nodeMap /\
       svg_labels tree =
         (text_element props offset
            <$> filter (fun node =>
                          ToBoolean (prop (attrs props) "showLabels")
                          || ToBoolean (prop node "showLabel") = true)
                  (hydrated nodeMap <$> get_nodes settled))) /\
  (forall (props : Props) (state : State) (w w1 w' : world) (simulation : nat)
          (settled : Sim) (tree : svg),
     let rendered := with_defaultProps (render (with_interactive_defaultProps props) state) in
     ToBoolean (prop (attrs props) "showLabels") = false ->
     Forall (fun n => exists s : string, nodeId n = VStr s) (nodes props) ->
     Forall (fun positionNode =>
               exists n : obj, n ∈ nodes props /\ nodeId positionNode = nodeId n)
       (get_nodes settled) ->
     _getSimulation rendered w = Ok (simulation, w1) ->
     sims w1 !! simulation = Some settled ->
     view props state w = Ok (tree, w') ->
     text_key <$> svg_labels tree =
       ((fun positionNode => ToString (nodeId positionNode) +:+ "-label")
          <$> filter (fun positionNode =>
                        is_focus (selectedNode state) positionNode
                        || is_focus (hoveredNode state) positionNode = true)
                (get_nodes settled)) /\
     (focused state = false -> svg_labels tree = []) /\
     (forall a b pa pb hovered : obj,
        nodes props = [a; b] -> nodeId a = VStr "a" -> nodeId b = VStr "b" ->
        get_nodes settled = [pa; pb] -> nodeId pa = VStr "a" -> nodeId pb = VStr "b" ->
        selectedNode state = None -> hoveredNode state = Some hovered ->
        nodeId hovered = VStr "a" ->
        text_key <$> svg_labels tree = ["a-label"])).
Proof.
  split.
  - intros props offset w w1 w' simulation settled tree Hoffset Hsim Hsettled Hrender.
    destruct (ForceDirectedGraph_layers props offset w w1 w' simulation settled tree
                Hoffset Hsim Hsettled Hrender) as (nodeMap & Hmap & _ & Hlabels).
    by exists nodeMap.
  - intros props state w w1 w' simulation settled tree rendered
      Hshow Hids Hpos Hsim Hsettled Hview.
    destruct (ForceDirectedGraph_layers rendered
                (default default_labelOffset (labelOffset props))
                w w1 w' simulation settled tree eq_refl Hsim Hsettled Hview)
      as (nodeMap & Hmap & _ & Hlabels).
    assert (Hkeys : text_key <$> svg_labels tree =
              ((fun positionNode => ToString (nodeId positionNode) +:+ "-label")
                 <$> filter (fun positionNode =>
                               is_focus (selectedNode state) positionNode
                               || is_focus (hoveredNode state) positionNode = true)
                       (get_nodes settled))).
    { rewrite Hlabels. apply label_keys.
      eapply Forall_impl; [exact Hpos|]. intros positionNode Hn.
      by apply (view_labelled props state nodeMap positionNode). }
    split; [done|]. split.
    + intros Hfocus. apply (fmap_nil_inv text_key). rewrite Hkeys.
      unfold focused in Hfocus.
      destruct (selectedNode state), (hoveredNode state); try done.
      cbn [is_focus orb]. clear. induction (get_nodes settled) as [|x l IH]; [done|].
      by rewrite filter_cons_False.
    + intros a b pa pb hovered Hnodes Ha Hb Hget Hpa Hpb Hsel Hhov Hhovered.
      rewrite Hkeys, Hget, Hsel, Hhov. unfold is_focus. rewrite Hhovered.
      rewrite !filter_cons, filter_nil, Hpa, Hpb.
      rewrite decide_True by done. rewrite decide_False by done.
      rewrite fmap_cons, Hpa. reflexivity.
Qed.

End OpacityAndLabels.

(** ** Configuring and settling a simulation *)

Section Configuration.
Context `{Host} `{ForceLibrary}.

(** The loop over [ALPHA_FACTORS] sets exactly the factors that are own
    properties of the options, in order, and logs nothing. *)
Lemma forEach_factors_applied (options : Options) (simulation : nat) (names : list string) :
  forall (w : world) (s : Sim),
  sims w !! simulation = Some s ->
  forEach names (fun alphaFactorName =>
    match attrs options !! alphaFactorName with
    | Some v => update simulation (fun s => Ok (set_factor alphaFactorName v s))
    | None => mret tt
    end) w
  = Ok (tt, World (<[simulation := apply_factors options names s]> (sims w)) (calls w)).
Proof.
  induction names as [|name names IH]; intros w s Hs.
  - cbn. rewrite insert_id by done. by destruct w.
  - cbn [forEach]. unfold apply_factors. cbn [foldl].
    destruct (attrs options !! name) as [v|].
    + rewrite (M_bind_ok _ _ _ _ _ (update_live _ (set_factor name v) _ _ Hs)).
      rewrite (IH _ (set_factor name v s)) by (cbn; by rewrite lookup_insert_eq).
      cbn. by rewrite insert_insert_eq.
    + exact (IH w s Hs).
Qed.

(** [createSimulation] reaches the read of [options.data.nodes] with the
    [configured] simulation under a fresh reference. *)
Lemma createSimulation_configured (options : Options) (w : world) :
  let simulation := fresh (dom (sims w)) in
  createSimulation options w =
    (data_nodes ← lift (Get (prop (attrs options) "data") "nodes");
     seeds ← lift (array_map data_nodes copy_node);
     _ ← update simulation (fun s => Ok (set_nodes seeds s));
     data_links ← lift (Get (prop (attrs options) "data") "links");
     link_seeds ← lift (array_map data_links copy_link);
     _ ← update simulation (set_links link_seeds);
     mret simulation) (World (<[simulation := configured options]> (sims w)) (calls w)).
Proof.
  intros simulation. unfold createSimulation, configured.
  set (s0 := force_center _ _ _).
  set (w0 := World (<[simulation := s0]> (sims w)) (calls w)).
  assert (Halloc : alloc s0 w = Ok (simulation, w0)) by done.
  rewrite (M_bind_ok _ _ _ _ _ Halloc).
  rewrite (M_bind_ok _ _ _ _ _
             (forEach_factors_applied options simulation ALPHA_FACTORS w0 s0
                ltac:(cbn; by rewrite lookup_insert_eq))).
  cbn [sims calls w0]. rewrite insert_insert_eq.
  destruct (chargeStrength options) as [f|]; [|done].
  erewrite M_bind_ok;
    [|apply (update_live _ (charge_strength f)); cbn; by rewrite lookup_insert_eq].
  cbn [sims calls]. by rewrite insert_insert_eq.
Qed.

(** With the graph data under [options.data], the simulation that
    [createSimulation] seeds is the one with the link, charge and center
    forces (the center at half the width and half the height), on which
    every alpha factor that is an own property of the options has been set,
    in the order alpha, alphaDecay, alphaMin, alphaTarget, velocityDecay,
    and then the charge strength if one is given.  With no alpha factor and
    no charge strength, only the three forces are configured; with [alpha],
    [velocityDecay] and a charge strength, alpha is set first, velocityDecay
    second and the charge strength last. *)
Theorem createSimulation_configures (options : Options) (w : world) (data : obj)
    (data_nodes data_links : list value) :
  prop (attrs options) "data" = VObj data ->
  prop data "nodes" = VArr data_nodes ->
  prop data "links" = VArr data_links ->
  Forall (fun node => nullish node = false) data_nodes ->
  Forall (fun link => nullish link = false) data_links ->
  let centred :=
    force_center
      (js_div (prop (attrs options) "width") (VNum 2%float))
      (js_div (prop (attrs options) "height") (VNum 2%float))
      (force_charge (force_link nodeId forceSimulation)) in
  createSimulation options w =
    match set_links (link_copy <$> data_links)
                    (set_nodes (node_copy <$> data_nodes) (configured options)) with
    | Ok seeded =>
        Ok (fresh (dom (sims w)),
            World (<[fresh (dom (sims w)) := seeded]> (sims w)) (calls w))
    | Throw e => Throw e
    end /\
  (Forall (fun name => attrs options !! name = None) ALPHA_FACTORS ->
   chargeStrength options = None ->
   configured options = centred) /\
  (forall (a v : value) (f : obj -> value),
     attrs options !! "alpha" = Some a ->
     attrs options !! "alphaDecay" = None ->
     attrs options !! "alphaMin" = None ->
     attrs options !! "alphaTarget" = None ->
     attrs options !! "velocityDecay" = Some v ->
     chargeStrength options = Some f ->
     configured options =
       charge_strength f (set_factor "velocityDecay" v (set_factor "alpha" a centred))).
Proof.
  intros Hdata Hnodes Hlinks Hns Hls centred. split; [|split].
  - rewrite createSimulation_configured.
    rewrite Hdata. cbn [Get own_props]. rewrite Hnodes, Hlinks.
    erewrite M_bind_ok; [|reflexivity].
    erewrite M_bind_ok; cycle 1.
    { unfold array_map. rewrite (map_array_ok copy_node node_copy); [reflexivity|].
      eapply Forall_impl; [exact Hns|]. apply copy_node_ok. }
    erewrite M_bind_ok; [|apply update_live; cbn; by rewrite lookup_insert_eq].
    erewrite M_bind_ok; [|reflexivity].
    erewrite M_bind_ok; cycle 1.
    { unfold array_map. rewrite (map_array_ok copy_link link_copy); [reflexivity|].
      eapply Forall_impl; [exact Hls|]. apply copy_link_ok. }
    cbn [sims calls]. rewrite insert_insert_eq.
    unfold mbind, M_bind, update. cbn [sims calls]. rewrite lookup_insert_eq.
    destruct (set_links _ _) as [seeded|e]; [|done].
    cbn. by rewrite insert_insert_eq.
  - intros Hnone Hcharge. unfold configured. rewrite Hcharge. fold centred.
    unfold apply_factors. generalize centred. clear -Hnone.
    induction Hnone as [|name names Hname _ IH]; intros s; [done|].
    cbn [foldl]. rewrite Hname. apply IH.
  - intros a v f Ha Hdecay Hmin Htarget Hv Hcharge.
    unfold configured, apply_factors, ALPHA_FACTORS. cbn [foldl].
    by rewrite Ha, Hdecay, Hmin, Htarget, Hv, Hcharge.
Qed.

Lemma Get_ok (v : value) (k : string) :
  nullish v = false -> Get v k = Ok (prop (own_props v) k).
Proof. by destruct v. Qed.

Lemma Get_nullish (v : value) (k : string) :
  nullish v = true -> exists msg : string, Get v k = Throw (TypeError msg).
Proof. destruct v; try done; intros _; by eexists. Qed.

Lemma array_map_raises (a : value) (f : value -> result obj) :
  (forall l : list value, a <> VArr l) ->
  exists msg : string, array_map a f = Throw (TypeError msg).
Proof. intros Ha. destruct a; try (by eexists). by destruct (Ha l). Qed.

(** Mapping raises as soon as the callback raises on some element. *)
Lemma map_array_raises {A B : Type} (f : A -> result B) (bad : A -> bool) (items : list A) :
  (forall a, bad a = false -> exists b, f a = Ok b) ->
  (forall a, bad a = true -> exists msg : string, f a = Throw (TypeError msg)) ->
  existsb bad items = true ->
  exists msg : string, map_array f items = Throw (TypeError msg).
Proof.
  intros Hok Hbad. induction items as [|a items IH]; [done|]. cbn.
  destruct (bad a) eqn:Ha.
  - intros _. destruct (Hbad a Ha) as [msg ->]. by exists msg.
  - cbn. intros Hrest. destruct (Hok a Ha) as [b ->].
    destruct (IH Hrest) as [msg ->]. by exists msg.
Qed.

Lemma array_or_not (a : value) : (exists l, a = VArr l) \/ forall l, a <> VArr l.
Proof. destruct a; try (by right); left; by eexists. Qed.

Lemma existsb_false_Forall {A : Type} (p : A -> bool) (l : list A) :
  existsb p l = false -> Forall (fun a => p a = false) l.
Proof.
  induction l as [|a l IH]; [intros _; apply Forall_nil_2|]. cbn.
  intros [Ha Hl]%orb_false_elim. apply Forall_cons_2; [done|by apply IH].
Qed.

Lemma copy_node_raises (node : value) :
  nullish node = true -> exists msg : string, copy_node node = Throw (TypeError msg).
Proof. destruct node; try done; intros _; by eexists. Qed.

Lemma copy_link_raises (link : value) :
  nullish link = true -> exists msg : string, copy_link link = Throw (TypeError msg).
Proof. destruct link; try done; intros _; by eexists. Qed.

(** Unless [options.data] is there, with [nodes] and [links] two arrays
    without any [null] or [undefined] element, [createSimulation] raises a
    [TypeError], whatever the force library does: it returns no simulation
    and never hands the library a malformed seed. *)
Theorem createSimulation_malformed_data (options : Options) (w : world) :
  let data := prop (attrs options) "data" in
  (exists data_nodes data_links : list value,
     nullish data = false /\
     prop (own_props data) "nodes" = VArr data_nodes /\
     prop (own_props data) "links" = VArr data_links /\
     Forall (fun node => nullish node = false) data_nodes /\
     Forall (fun link => nullish link = false) data_links) \/
  exists msg : string, createSimulation options w = Throw (TypeError msg).
Proof.
  intros data. rewrite createSimulation_configured. fold data.
  destruct (nullish data) eqn:Hdata.
  { right. destruct (Get_nullish data "nodes" Hdata) as [msg Hmsg].
    exists msg. apply M_bind_throw. unfold lift. by rewrite Hmsg. }
  rewrite !(Get_ok data) by done.
  erewrite M_bind_ok; [|reflexivity].
  destruct (array_or_not (prop (own_props data) "nodes"))
    as [[data_nodes Hnodes]|Hnodes]; cycle 1.
  { right. destruct (array_map_raises (prop (own_props data) "nodes") copy_node)
      as [msg Hmsg]; [exact Hnodes|].
    exists msg. apply M_bind_throw. unfold lift. by rewrite Hmsg. }
  rewrite Hnodes. cbn [array_map].
  destruct (existsb nullish data_nodes) eqn:Hns.
  { right. destruct (map_array_raises copy_node nullish data_nodes) as [msg Hmsg];
      [intros a Ha; exists (node_copy a); by apply copy_node_ok
      |apply copy_node_raises|done|].
    exists msg. apply M_bind_throw. unfold lift. by rewrite Hmsg. }
  apply existsb_false_Forall in Hns.
  erewrite M_bind_ok; cycle 1.
  { rewrite (map_array_ok copy_node node_copy); [reflexivity|].
    eapply Forall_impl; [exact Hns|]. apply copy_node_ok. }
  erewrite M_bind_ok; [|apply update_live; cbn; by rewrite lookup_insert_eq].
  erewrite M_bind_ok; [|reflexivity].
  destruct (array_or_not (prop (own_props data) "links"))
    as [[data_links Hlinks]|Hlinks]; cycle 1.
  { right. destruct (array_map_raises (prop (own_props data) "links") copy_link)
      as [msg Hmsg]; [exact Hlinks|].
    exists msg. apply M_bind_throw. unfold lift. by rewrite Hmsg. }
  rewrite Hlinks. cbn [array_map].
  destruct (existsb nullish data_links) eqn:Hls.
  { right. destruct (map_array_raises copy_link nullish data_links) as [msg Hmsg];
      [intros a Ha; exists (link_copy a); by apply copy_link_ok
      |apply copy_link_raises|done|].
    exists msg. apply M_bind_throw. unfold lift. by rewrite Hmsg. }
  apply existsb_false_Forall in Hls.
  left. by exists data_nodes, data_links.
Qed.

(** [runSimulation] on a live simulation, whatever the number of steps. *)
Lemma runSimulation_live (w : world) (simulation : nat) (s : Sim) (steps : option nat) :
  sims w !! simulation = Some s ->
  runSimulation simulation steps w =
    Ok (simulation,
        World (<[simulation := stop (Nat.iter (default 300 steps) tick (restart s))]> (sims w))
              (calls w ++ [(simulation, Restart)]
                       ++ replicate (default 300 steps) (simulation, Tick)
                       ++ [(simulation, Stop)])).
Proof.
  intros Hs. unfold runSimulation. generalize (default 300 steps). intros n.
  rewrite (M_bind_ok _ _ _ _ _ (invoke_live _ Restart _ _ Hs)).
  erewrite M_bind_ok;
    [|apply (while_loop_ticks simulation n n 0 _ (restart s));
       [lia|cbn; by rewrite lookup_insert_eq]].
  erewrite M_bind_ok; [|apply invoke_live; cbn; by rewrite lookup_insert_eq].
  cbn. rewrite !insert_insert_eq. by rewrite <- !app_assoc.
Qed.

Lemma update_inv (simulation : nat) (f : Sim -> result Sim) (w w' : world) (u : unit) :
  update simulation f w = Ok (u, w') ->
  exists s s' : Sim,
    sims w !! simulation = Some s /\ f s = Ok s' /\
    w' = World (<[simulation := s']> (sims w)) (calls w).
Proof.
  unfold update. destruct (sims w !! simulation) as [s|]; [|done].
  destruct (f s) as [s'|e] eqn:Hf; [|done]. intros [= <-]. by exists s, s'.
Qed.

(** The reference [createSimulation] returns is the fresh one, it is live,
    and creating logs no lifecycle call. *)
Lemma createSimulation_fresh (options : Options) (w w1 : world) (simulation : nat) :
  createSimulation options w = Ok (simulation, w1) ->
  exists s : Sim,
    simulation = fresh (dom (sims w)) /\
    w1 = World (<[simulation := s]> (sims w)) (calls w).
Proof.
  rewrite createSimulation_configured. intros Hrun.
  apply M_bind_inv in Hrun as (data_nodes & w2 & Hget & Hrun).
  apply lift_inv in Hget as [_ ->].
  apply M_bind_inv in Hrun as (seeds & w2 & Hseeds & Hrun).
  apply lift_inv in Hseeds as [_ ->].
  apply M_bind_inv in Hrun as (u & w2 & Hset & Hrun).
  apply update_inv in Hset as (s & s' & _ & _ & ->).
  apply M_bind_inv in Hrun as (data_links & w2 & Hget & Hrun).
  apply lift_inv in Hget as [_ ->].
  apply M_bind_inv in Hrun as (link_seeds & w2 & Hseeds & Hrun).
  apply lift_inv in Hseeds as [_ ->].
  apply M_bind_inv in Hrun as (u' & w2 & Hset & Hrun).
  apply update_inv in Hset as (s2 & s2' & _ & _ & ->).
  injection Hrun as <- <-. exists s2'. split; [done|]. cbn [sims calls].
  by rewrite !insert_insert_eq.
Qed.

(** [_getSimulation] settles whichever simulation it obtains in the same
    way: with a [simulationFactory], the factory is called with the
    properties and [createSimulation] is not (so [options.data] is not
    read); without one, [createSimulation] is.  If building raises, so does
    [_getSimulation]; otherwise the simulation built is returned after one
    restart, exactly 300 ticks and one stop, with no other call on it, and
    no property changes the number of ticks.  The simulation that
    [createSimulation] returns is always live. *)
Theorem getSimulation_settles (props : Props) (w : world) :
  let built :=
    match simulationFactory props with
    | Some factory => factory props w
    | None => createSimulation props w
    end in
  (forall e : exn, built = Throw e -> _getSimulation props w = Throw e) /\
  (forall (simulation : nat) (w1 : world) (s : Sim),
     built = Ok (simulation, w1) ->
     sims w1 !! simulation = Some s ->
     _getSimulation props w =
       Ok (simulation,
           World (<[simulation := settle s]> (sims w1))
                 (calls w1 ++ settle_calls simulation))) /\
  (forall (simulation : nat) (w1 : world),
     simulationFactory props = None ->
     built = Ok (simulation, w1) ->
     is_Some (sims w1 !! simulation) /\ calls w1 = calls w).
Proof.
  intros built. unfold _getSimulation. split; [|split].
  - intros e He. unfold built in He.
    destruct (simulationFactory props) as [factory|]; by apply M_bind_throw.
  - intros simulation w1 s Hbuilt Hs. unfold built in Hbuilt.
    destruct (simulationFactory props) as [factory|];
      rewrite (M_bind_ok _ _ _ _ _ Hbuilt);
      apply (runSimulation_live w1 simulation s None Hs).
  - intros simulation w1 Hnone Hbuilt. unfold built in Hbuilt. rewrite Hnone in Hbuilt.
    apply createSimulation_fresh in Hbuilt as (s & _ & ->). cbn [sims calls].
    split; [|done]. by rewrite lookup_insert_eq.
Qed.

End Configuration.

(** ** Links without endpoints, and what the identity map holds *)

Section Identity.
Context `{Host} `{ForceLibrary}.

Lemma linkId_dangling (link : obj) :
  dangling link = true -> exists msg : string, linkId link = Throw (TypeError msg).
Proof.
  unfold dangling, linkId. destruct (nullish (prop link "source")) eqn:Hs.
  - intros _. destruct (Get_nullish _ "id" Hs) as [msg ->]. by exists msg.
  - cbn [orb]. intros Ht. rewrite (Get_ok _ _ Hs). cbn [mbind result_bind].
    destruct (Get_nullish _ "id" Ht) as [msg ->]. by exists msg.
Qed.

Lemma linkId_defined (link : obj) :
  dangling link = false ->
  exists s t : string, linkId link = Ok (VStr (s +:+ "=>" +:+ t)).
Proof.
  unfold dangling, linkId. intros [Hs Ht]%orb_false_elim.
  rewrite (Get_ok _ _ Hs), (Get_ok _ _ Ht). cbn [mbind result_bind]. by eexists _, _.
Qed.

(** Styling a link leaves its endpoints, hence its id, alone. *)
Lemma style_link_endpoints (props : Props) (state : State) (link : obj) :
  prop (style_link props state link) "source" = prop link "source" /\
  prop (style_link props state link) "target" = prop link "target".
Proof. unfold prop. by rewrite !style_link_other. Qed.

Lemma linkId_style_link (props : Props) (state : State) (link : obj) :
  linkId (style_link props state link) = linkId link.
Proof.
  unfold linkId. destruct (style_link_endpoints props state link) as [-> ->]. done.
Qed.

(** The reducer raises as soon as the id of some item cannot be read. *)
Lemma reduce_assign_raises (items : list obj) (_id : obj -> result value)
    (defaults : obj) (bad : obj -> bool) :
  (forall item, bad item = false -> exists k, _id item = Ok k) ->
  (forall item, bad item = true -> exists msg : string, _id item = Throw (TypeError msg)) ->
  Exists (fun item => bad item = true) items ->
  forall acc : obj,
  exists msg : string, reduce (assign_item _id defaults) items acc = Throw (TypeError msg).
Proof.
  intros Hok Hbad. induction items as [|item items IH]; intros Hex acc.
  - by apply Exists_nil in Hex.
  - rewrite reduce_cons. destruct (bad item) eqn:Hitem.
    + destruct (Hbad item Hitem) as [msg Hmsg]. exists msg.
      assert (Hstep : assign_item _id defaults acc item = Throw (TypeError msg))
        by (unfold assign_item; by rewrite Hmsg).
      by rewrite Hstep.
    + destruct (Hok item Hitem) as [k Hk]. rewrite (assign_item_ok _ _ _ _ k Hk).
      cbn [mbind result_bind].
      apply IH. apply Exists_cons in Hex as [Hhere|Hlater]; [congruence|done].
Qed.

(** [linkId] raises a [TypeError] exactly on a link one of whose endpoints
    is missing, [undefined] or [null]; on every other link it returns a
    string holding ["=>"].  The link map is built before the simulation is
    obtained, so one such link among the properties makes
    [ForceDirectedGraph] raise a [TypeError] whatever the other properties
    are, [simulationFactory] included; the interactive component raises as
    well, in every state. *)
Theorem dangling_link_raises :
  (forall link : obj,
     if dangling link
     then exists msg : string, linkId link = Throw (TypeError msg)
     else exists s t : string, linkId link = Ok (VStr (s +:+ "=>" +:+ t))) /\
  (forall (props : Props) (w : world),
     Exists (fun link => dangling link = true) (links props) ->
     (exists msg : string,
        _mapItemsById (links props) linkId LINK_DEFAULTS = Throw (TypeError msg)) /\
     (exists msg : string, ForceDirectedGraph props w = Throw (TypeError msg)) /\
     (forall state : State,
        exists msg : string, view props state w = Throw (TypeError msg))).
Proof.
  assert (Hmap : forall links : list obj,
            Exists (fun link => dangling link = true) links ->
            exists msg : string,
              _mapItemsById links linkId LINK_DEFAULTS = Throw (TypeError msg)).
  { intros links Hex. apply (reduce_assign_raises links linkId LINK_DEFAULTS dangling);
      [|apply linkId_dangling|done].
    intros link Hlink. destruct (linkId_defined link Hlink) as (s & t & ->). by eexists. }
  assert (Hrender : forall (props : Props) (w : world),
            Exists (fun link => dangling link = true) (links props) ->
            exists msg : string, ForceDirectedGraph props w = Throw (TypeError msg)).
  { intros props w Hex. destruct (Hmap _ Hex) as [msg Hmsg]. exists msg.
    unfold ForceDirectedGraph.
    destruct (reduce_assign_total (nodes props) (total nodeId) NODE_DEFAULTS ∅)
      as [nodeMap HnodeMap]; [apply Forall_forall; intros n _; by exists (nodeId n)|].
    erewrite M_bind_ok; [|unfold lift, _mapItemsById; by rewrite HnodeMap].
    apply M_bind_throw. unfold lift. by rewrite Hmsg. }
  split.
  - intros link. destruct (dangling link) eqn:Hlink;
      [by apply linkId_dangling|by apply linkId_defined].
  - intros props w Hex. split; [by apply Hmap|]. split; [by apply Hrender|].
    intros state. unfold view. apply Hrender.
    cbn [links options with_defaultProps render with_interactive_defaultProps].
    unfold styledLinks. apply Exists_fmap.
    eapply Exists_impl; [exact Hex|]. intros link Hlink.
    unfold compose, dangling in *.
    by destruct (style_link_endpoints (with_interactive_defaultProps props) state link)
      as [-> ->].
Qed.






End Identity.

(** ** What the overlay lays over a node and over a link *)

Section Overlay.
Context `{Host} `{ForceLibrary}.

(** The overlay's fields depend on the node's [styles], [labelStyles], [id]
    and [opacity] only. *)
Lemma node_overlay_reads (props : Props) (state : State) (node node' : obj) :
  prop node' "styles" = prop node "styles" ->
  prop node' "labelStyles" = prop node "labelStyles" ->
  prop node' "id" = prop node "id" ->
  prop node' "opacity" = prop node "opacity" ->
  node_overlay props state node' = node_overlay props state node.
Proof.
  intros Hstyles Hlabel Hid Hopacity.
  unfold node_overlay, focus_matches, dimmed, is_focus, nodeId.
  by rewrite Hstyles, Hlabel, Hid, Hopacity.
Qed.

(** A styled node is the node with four fields written over it: [style],
    [labelStyle], [showLabel] and [opacity]; every other field is kept.
    [style] is the node's [styles] laid over [{cursor: 'pointer'}], so the
    cursor is a pointer unless [styles] sets one, and [labelStyle] is built
    from [labelStyles] likewise.  Whatever the node holds under [style],
    [labelStyle] or [showLabel] is not read and does not survive. *)
Theorem style_node_frame (props : Props) (state : State) (node : obj) :
  let styled := style_node props state node in
  (forall k : string,
     k <> "style" -> k <> "labelStyle" -> k <> "showLabel" -> k <> "opacity" ->
     styled !! k = node !! k) /\
  styled !! "style" = Some (VObj (own_props (prop node "styles") ∪ DEFAULT_NODE_STYLES)) /\
  styled !! "labelStyle"
    = Some (VObj (own_props (prop node "labelStyles") ∪ DEFAULT_LABEL_STYLES)) /\
  (forall styles : obj,
     prop node "styles" = VObj styles ->
     exists style : obj,
       styled !! "style" = Some (VObj style) /\
       (forall k : string, k <> "cursor" -> style !! k = styles !! k) /\
       prop style "cursor" = default (VStr "pointer") (styles !! "cursor")) /\
  (prop node "styles" = VUndefined -> styled !! "style" = Some (VObj DEFAULT_NODE_STYLES)) /\
  (forall (k : string) (v : value),
     k = "style" \/ k = "labelStyle" \/ k = "showLabel" ->
     style_node props state (<[k := v]> node) !! k = styled !! k).
Proof.
  intros styled. unfold styled. rewrite style_node_overlay.
  assert (Hstyle : (node_overlay props state node ∪ node) !! "style"
            = Some (VObj (own_props (prop node "styles") ∪ DEFAULT_NODE_STYLES))).
  { apply lookup_union_Some_l. unfold node_overlay, Object_assign. cbn [foldl own_props].
    by rewrite (right_id_L ∅ (∪)). }
  split; [|split; [|split; [|split; [|split]]]].
  - intros k Hs Hl Hsh Ho. apply lookup_union_r. unfold node_overlay.
    by rewrite !lookup_insert_ne, lookup_singleton_ne by done.
  - exact Hstyle.
  - apply lookup_union_Some_l. unfold node_overlay, Object_assign. cbn [foldl own_props].
    by rewrite (right_id_L ∅ (∪)).
  - intros styles Hstyles. exists (styles ∪ DEFAULT_NODE_STYLES).
    rewrite Hstyle, Hstyles. split; [done|]. split.
    + intros k Hk. unfold DEFAULT_NODE_STYLES.
      rewrite lookup_union, (lookup_singleton_ne "cursor" k) by done.
      by destruct (styles !! k).
    + unfold prop, DEFAULT_NODE_STYLES. rewrite lookup_union, lookup_singleton_eq.
      by destruct (styles !! "cursor").
  - intros Hstyles. rewrite Hstyle, Hstyles. cbn [own_props].
    by rewrite (left_id_L ∅ (∪)).
  - intros k v Hk. rewrite style_node_overlay.
    assert (Hsame : node_overlay props state (<[k := v]> node) = node_overlay props state node)
      by (apply node_overlay_reads; unfold prop; rewrite lookup_insert_ne; try done;
          destruct Hk as [-> | [-> | ->]]; done).
    rewrite Hsame.
    assert (Hin : is_Some (node_overlay props state node !! k))
      by (destruct Hk as [-> | [-> | ->]]; by eexists).
    destruct Hin as [x Hx].
    by rewrite (lookup_union_Some_l _ (<[k := v]> node) k x Hx),
               (lookup_union_Some_l _ node k x Hx).
Qed.

(** For a link that has no [opacity] of its own, the styled link holds one
    all the same: [undefined] while no node is selected or hovered, and
    1 / [opacityFactor] otherwise.  The entry of the link map, built with
    [LINK_DEFAULTS], keeps that value and not the default opacity, while the
    default color is filled in when the link has none; the line drawn for a
    positional link of that id has the entry's opacity, unless the
    positional link is never drawn.  The link is the last of its id. *)
Theorem link_default_opacity_unused (props : Props) (state : State)
    (before after : list obj) (link : obj) (id : value) :
  let overlay := with_interactive_defaultProps props in
  let opacityFactor := prop (attrs overlay) "opacityFactor" in
  links props = before ++ link :: after ->
  Forall (fun l => exists v, linkId l = Ok v) (links props) ->
  linkId link = Ok id ->
  Forall (fun l => forall v, linkId l = Ok v -> ToString v <> ToString id) after ->
  link !! "opacity" = None ->
  exists linkMap entry : obj,
    _mapItemsById (styledLinks overlay state) linkId LINK_DEFAULTS = Ok linkMap /\
    linkMap !! ToString id = Some (VObj entry) /\
    is_Some (LINK_DEFAULTS !! "opacity") /\
    (focused state = false -> entry !! "opacity" = Some VUndefined) /\
    (focused state = true ->
     entry !! "opacity" = Some (js_div (VNum 1%float) opacityFactor)) /\
    (link !! "color" = None -> entry !! "color" = Some (VStr "#999")) /\
    (forall (positionLink : obj) (drawn : list line),
       linkId positionLink = Ok id ->
       push_link linkMap [] positionLink = Ok drawn ->
       exists l : line,
         drawn = [l] /\ line_opacity l = prop entry "opacity" /\
         (link !! "color" = None -> line_stroke l = VStr "#999")).
Proof.
  intros overlay opacityFactor Hlinks Hall Hid Hafter Hmissing.
  destruct (_mapItemsById_last (styledLinks overlay state) linkId LINK_DEFAULTS
              (style_link overlay state <$> before) (style_link overlay state link)
              (style_link overlay state <$> after) id)
    as (linkMap & Hmap & Hentry).
  - unfold styledLinks. change (links overlay) with (links props).
    by rewrite Hlinks, fmap_app, fmap_cons.
  - unfold styledLinks. change (links overlay) with (links props).
    apply Forall_fmap. eapply Forall_impl; [exact Hall|].
    intros l [v Hv]. exists v. unfold compose. by rewrite linkId_style_link.
  - by rewrite linkId_style_link.
  - apply Forall_fmap. eapply Forall_impl; [exact Hafter|].
    intros l Hl v. unfold compose. rewrite linkId_style_link. apply Hl.
  - rewrite Object_assign_two in Hentry.
    pose proof (style_link_opacity overlay state link) as Hstyled.
    rewrite (prop_missing _ _ Hmissing) in Hstyled.
    assert (Hopacity : (style_link overlay state link ∪ LINK_DEFAULTS) !! "opacity" =
              Some (if focused state
                    then _applyOpacity opacityFactor VUndefined else VUndefined))
      by (by apply lookup_union_Some_l).
    assert (Hcolor : link !! "color" = None ->
              (style_link overlay state link ∪ LINK_DEFAULTS) !! "color"
                = Some (VStr "#999")).
    { intros Hnone. rewrite lookup_union_r; [done|]. by rewrite style_link_other. }
    remember (style_link overlay state link ∪ LINK_DEFAULTS) as entry eqn:Hdef.
    clear Hdef Hstyled.
    exists linkMap, entry. split; [done|]. split; [done|]. split; [by eexists|].
    split; [intros Hfocus; by rewrite Hopacity, Hfocus|].
    split; [intros Hfocus; by rewrite Hopacity, Hfocus|].
    split; [exact Hcolor|].
    intros positionLink drawn Hpos Hdrawn. unfold push_link in Hdrawn.
    rewrite (_hydrateFromMap_entry positionLink linkMap entry linkId id Hpos Hentry)
      in Hdrawn.
    cbn [mbind result_bind] in Hdrawn.
    destruct (linkId (entry ∪ positionLink)) as [key|e]; [|done].
    cbn [mbind result_bind] in Hdrawn.
    destruct (Get (prop positionLink "source") "x") as [sx|e]; [|done].
    destruct (Get (prop positionLink "source") "y") as [sy|e]; [|done].
    destruct (Get (prop positionLink "target") "x") as [tx|e]; [|done].
    destruct (Get (prop positionLink "target") "y") as [ty|e]; [|done].
    cbn in Hdrawn. injection Hdrawn as <-. eexists. split; [done|].
    cbn [line_opacity line_stroke]. split.
    + apply prop_union_l. by rewrite Hopacity.
    + intros Hnone. rewrite prop_union_l by (rewrite (Hcolor Hnone); by eexists).
      by rewrite (prop_lookup _ _ _ (Hcolor Hnone)).
Qed.

End Overlay.

(** ** Sequences of events *)

Section Events.
Context `{Host} `{ForceLibrary}.

Lemma told_selection_app (initial : option obj) (first others : list call) :
  told_selection initial (first ++ others)
    = told_selection (told_selection initial first) others.
Proof.
  unfold told_selection, selection_events. rewrite filter_app, last_app.
  by destruct (last (filter _ others)).
Qed.

Lemma onClickNode_told (props : Props) (state : State) (node : obj) (forwarded : list call) :
  Forall (fun c => callee c <> "onSelectNode" /\ callee c <> "onDeselectNode") forwarded ->
  selectedNode (onClickNode props state node).1
    = told_selection (selectedNode state) ((onClickNode props state node).2 ++ forwarded).
Proof.
  intros Hfwd. unfold told_selection.
  rewrite (selection_events_click props state node forwarded Hfwd).
  unfold onClickNode. destruct (selectedNode state) as [previous|]; [|done].
  by destruct (strict_eq _ _).
Qed.

Lemma forwarded_not_selection (props : Props) (fn : string) (node : obj) :
  fn <> "onSelectNode" -> fn <> "onDeselectNode" ->
  Forall (fun c => callee c <> "onSelectNode" /\ callee c <> "onDeselectNode")
    (if decide (fn ∈ callbacks props) then [Call fn node] else []).
Proof.
  intros Hs Hd. destruct (decide (fn ∈ callbacks props)); [|apply Forall_nil_2].
  apply Forall_cons_2; [done|apply Forall_nil_2].
Qed.

(** One element activated: the selection afterwards is the one the
    selection callbacks tell. *)
Lemma fire_told (props : Props) (c : call) (state : State) :
  selectedNode (fire props c state).1
    = told_selection (selectedNode state) (fire props c state).2.
Proof.
  destruct c as [name node]. unfold fire, handler. cbn [callee argument].
  destruct (String.eqb name "onHoverNode");
    [cbn; by destruct (decide ("onHoverNode" ∈ callbacks props))|].
  destruct (String.eqb name "onBlurNode");
    [cbn; by destruct (decide ("onBlurNode" ∈ callbacks props))|].
  destruct (String.eqb name "onClickNode").
  { pose proof (fire_click_node props state node) as Hfire.
    unfold fire, handler in Hfire. cbn -[onClickNode] in Hfire. cbn -[onClickNode told_selection].
    rewrite Hfire. cbn [fst snd].
    apply onClickNode_told, forwarded_not_selection; done. }
  destruct (String.eqb name "onClickLabel"); [|done].
  pose proof (fire_click_label props state node) as Hfire.
  unfold fire, handler in Hfire. cbn -[onClickNode] in Hfire.
  cbn -[onClickNode told_selection]. rewrite Hfire. cbn [fst snd].
  apply onClickNode_told, forwarded_not_selection; done.
Qed.

(** One element that is not a click: the selection is kept and no selection
    callback is invoked. *)
Lemma fire_no_click (props : Props) (c : call) (state : State) :
  callee c <> "onClickNode" -> callee c <> "onClickLabel" ->
  selectedNode (fire props c state).1 = selectedNode state /\
  selection_events (fire props c state).2 = [].
Proof.
  destruct c as [name node]. cbn [callee]. intros Hnode Hlabel.
  unfold fire, handler. cbn [callee argument].
  destruct (String.eqb name "onHoverNode");
    [cbn; by destruct (decide ("onHoverNode" ∈ callbacks props))|].
  destruct (String.eqb name "onBlurNode");
    [cbn; by destruct (decide ("onBlurNode" ∈ callbacks props))|].
  destruct (String.eqb_spec name "onClickNode"); [done|].
  destruct (String.eqb_spec name "onClickLabel"); done.
Qed.

(** One element that is neither entered nor left: the hovered node is kept. *)
Lemma fire_no_hover (props : Props) (c : call) (state : State) :
  callee c <> "onHoverNode" -> callee c <> "onBlurNode" ->
  hoveredNode (fire props c state).1 = hoveredNode state.
Proof.
  destruct c as [name node]. cbn [callee]. intros Hhover Hblur.
  unfold fire, handler. cbn [callee argument].
  destruct (String.eqb_spec name "onHoverNode"); [done|].
  destruct (String.eqb_spec name "onBlurNode"); [done|].
  assert (Hclick : hoveredNode (onClickNode props state node).1 = hoveredNode state).
  { unfold onClickNode. destruct (selectedNode state) as [previous|]; [|done].
    by destruct (strict_eq _ _). }
  destruct (String.eqb name "onClickNode").
  { unfold _createEventHanlder, method_named. cbn -[onClickNode].
    by destruct (onClickNode props state node). }
  destruct (String.eqb name "onClickLabel"); [|done].
  unfold _createEventHanlder, method_named. cbn -[onClickNode].
  by destruct (onClickNode props state node).
Qed.

(** After any sequence of events on the drawn elements, from any state, the
    selected node is the one the selection callbacks tell: the node of the
    last [onSelectNode] or [onDeselectNode] callback if it was a select,
    none if it was a deselect, and the selection before the sequence if no
    such callback was invoked.  A sequence without a click on a circle or a
    label keeps the selection and invokes no selection callback; a sequence
    in which no circle is entered or left keeps the hovered node. *)
Theorem selection_tracks_callbacks (props : Props) (events : list call) (state : State) :
  selectedNode (fire_all props events state).1
    = told_selection (selectedNode state) (fire_all props events state).2 /\
  (Forall (fun c => callee c <> "onClickNode" /\ callee c <> "onClickLabel") events ->
   selectedNode (fire_all props events state).1 = selectedNode state /\
   selection_events (fire_all props events state).2 = []) /\
  (Forall (fun c => callee c <> "onHoverNode" /\ callee c <> "onBlurNode") events ->
   hoveredNode (fire_all props events state).1 = hoveredNode state).
Proof.
  split; [|split].
  - revert state. induction events as [|c rest IH]; intros state; [done|].
    cbn [fire_all]. pose proof (fire_told props c state) as Hc.
    destruct (fire props c state) as [state1 first]. cbn [fst snd] in Hc.
    specialize (IH state1).
    destruct (fire_all props rest state1) as [state2 others]. cbn [fst snd] in IH |- *.
    by rewrite told_selection_app, <- Hc.
  - intros Hall. revert state.
    induction Hall as [|c rest [Hnode Hlabel] _ IH]; intros state; [done|].
    cbn [fire_all]. pose proof (fire_no_click props c state Hnode Hlabel) as [Hc Hnone].
    destruct (fire props c state) as [state1 first]. cbn [fst snd] in Hc, Hnone.
    specialize (IH state1).
    destruct (fire_all props rest state1) as [state2 others]. cbn [fst snd] in IH |- *.
    destruct IH as [IHsel IHnone]. split; [congruence|].
    unfold selection_events in *. by rewrite filter_app, Hnone, IHnone.
  - intros Hall. revert state.
    induction Hall as [|c rest [Hhover Hblur] _ IH]; intros state; [done|].
    cbn [fire_all]. pose proof (fire_no_hover props c state Hhover Hblur) as Hc.
    destruct (fire props c state) as [state1 first]. cbn [fst snd] in Hc.
    specialize (IH state1).
    destruct (fire_all props rest state1) as [state2 others]. cbn [fst snd] in IH |- *.
    congruence.
Qed.

End Events.

(** ** The layers of a render *)

Section Layers.
Context `{Host} `{ForceLibrary}.

(** The elements already pushed only get a line appended. *)
Lemma push_link_acc (linkMap : obj) (linkElements : list line) (positionLink : obj) :
  push_link linkMap linkElements positionLink =
    (drawn ← push_link linkMap [] positionLink; Ok (linkElements ++ drawn)).
Proof.
  unfold push_link.
  destruct (_hydrateFromMap positionLink linkId linkMap) as [link|e]; [|done].
  cbn [mbind result_bind].
  destruct (linkId link) as [key|e]; [|done]. cbn [mbind result_bind].
  destruct (Get (prop positionLink "source") "x") as [sx|e]; [|done].
  destruct (Get (prop positionLink "source") "y") as [sy|e]; [|done].
  destruct (Get (prop positionLink "target") "x") as [tx|e]; [|done].
  destruct (Get (prop positionLink "target") "y") as [ty|e]; [|done].
  reflexivity.
Qed.

Lemma push_link_one (linkMap : obj) (positionLink : obj) (drawn : list line) :
  push_link linkMap [] positionLink = Ok drawn -> exists l : line, drawn = [l].
Proof.
  unfold push_link.
  destruct (_hydrateFromMap positionLink linkId linkMap) as [link|e]; [|done].
  cbn [mbind result_bind].
  destruct (linkId link) as [key|e]; [|done]. cbn [mbind result_bind].
  destruct (Get (prop positionLink "source") "x") as [sx|e]; [|done].
  destruct (Get (prop positionLink "source") "y") as [sy|e]; [|done].
  destruct (Get (prop positionLink "target") "x") as [tx|e]; [|done].
  destruct (Get (prop positionLink "target") "y") as [ty|e]; [|done].
  cbn. intros [= <-]. by eexists.
Qed.

(** The loop over the positional links: one line each, in order. *)
Lemma reduce_push_link (linkMap : obj) (positionLinks : list obj) :
  forall linkElements out : list line,
  reduce (push_link linkMap) positionLinks linkElements = Ok out ->
  exists lines : list line,
    out = linkElements ++ lines /\
    Forall2 (fun positionLink l => push_link linkMap [] positionLink = Ok [l])
      positionLinks lines.
Proof.
  induction positionLinks as [|positionLink rest IH]; intros linkElements out Hout.
  - cbn in Hout. injection Hout as <-. exists []. by rewrite app_nil_r.
  - rewrite reduce_cons, push_link_acc in Hout.
    destruct (push_link linkMap [] positionLink) as [drawn|e] eqn:Hdrawn; [|done].
    destruct (push_link_one _ _ _ Hdrawn) as [l ->]. cbn [mbind result_bind] in Hout.
    destruct (IH _ _ Hout) as (lines & -> & Hlines).
    exists (l :: lines). rewrite <- app_assoc. split; [done|]. by apply Forall2_cons.
Qed.

(** Everything a completed render went through. *)
Lemma ForceDirectedGraph_inv (props : Props) (w w1 w' : world) (simulation : nat)
    (settled : Sim) (tree : svg) :
  _getSimulation props w = Ok (simulation, w1) ->
  sims w1 !! simulation = Some settled ->
  ForceDirectedGraph props w = Ok (tree, w') ->
  exists (nodeMap linkMap : obj) (elements : list circle * list text),
    _mapItemsById (nodes props) (total nodeId) NODE_DEFAULTS = Ok nodeMap /\
    _mapItemsById (links props) linkId LINK_DEFAULTS = Ok linkMap /\
    reduce (push_node props nodeMap) (get_nodes settled) ([], []) = Ok elements /\
    reduce (push_link linkMap) (get_links settled) [] = Ok (svg_links tree) /\
    svg_nodes tree = elements.1 /\ svg_labels tree = elements.2 /\
    svg_width tree = prop (attrs props) "width" /\
    svg_height tree = prop (attrs props) "height" /\
    svg_children tree = prop (attrs props) "children" /\
    w' = w1.
Proof.
  intros Hsim Hsettled Hrender. unfold ForceDirectedGraph in Hrender.
  apply M_bind_inv in Hrender as (nodeMap & w2 & HnodeMap & Hrender).
  apply lift_inv in HnodeMap as [HnodeMap ->].
  apply M_bind_inv in Hrender as (linkMap & w2 & HlinkMap & Hrender).
  apply lift_inv in HlinkMap as [HlinkMap ->].
  rewrite (M_bind_ok _ _ _ _ _ Hsim) in Hrender.
  apply M_bind_inv in Hrender as (settled' & w2 & Hderef & Hrender).
  apply deref_inv in Hderef as [Hderef ->].
  assert (settled' = settled) as -> by congruence.
  apply M_bind_inv in Hrender as (elements & w2 & Helements & Hrender).
  apply lift_inv in Helements as [Helements ->].
  apply M_bind_inv in Hrender as (settled' & w2 & Hderef' & Hrender).
  apply deref_inv in Hderef' as [Hderef' ->].
  assert (settled' = settled) as -> by congruence.
  apply M_bind_inv in Hrender as (linkElements & w2 & Hlines & Hrender).
  apply lift_inv in Hlines as [Hlines ->].
  injection Hrender as <- <-.
  exists nodeMap, linkMap, elements. cbn. done.
Qed.

(** In a completed render with the default properties applied: the nodes
    layer holds one circle for each positional node of the settled
    simulation, in the simulation's order, placed at the positional node's
    [x] and [y] and carrying the hydrated node in its three callbacks; the
    links layer holds one line for each positional link, in order, each the
    line [push_link] draws for it; the labels are at most as many as the
    circles, and exactly as many when [showLabels] is truthy; the [svg] has
    the caller's [width] and [height], 900 and 600 when the caller gives
    none; and rendering makes no call on the simulation after the settle. *)
Theorem render_layers (props : Props) (w w1 w' : world) (simulation : nat)
    (settled : Sim) (tree : svg) :
  let rendered := with_defaultProps props in
  _getSimulation rendered w = Ok (simulation, w1) ->
  sims w1 !! simulation = Some settled ->
  ForceDirectedGraph rendered w = Ok (tree, w') ->
  w' = w1 /\
  (exists nodeMap : obj,
     _mapItemsById (nodes props) (total nodeId) NODE_DEFAULTS = Ok nodeMap /\
     length (svg_nodes tree) = length (get_nodes settled) /\
     forall (i : nat) (positionNode : obj),
       get_nodes settled !! i = Some positionNode ->
       exists c : circle,
         svg_nodes tree !! i = Some c /\
         cx c = prop positionNode "x" /\ cy c = prop positionNode "y" /\
         circle_key c = nodeId (hydrated nodeMap positionNode) /\
         onMouseEnter c = Call "onHoverNode" (hydrated nodeMap positionNode) /\
         onMouseLeave c = Call "onBlurNode" (hydrated nodeMap positionNode) /\
         circle_onClick c = Call "onClickNode" (hydrated nodeMap positionNode)) /\
  (exists linkMap : obj,
     _mapItemsById (links props) linkId LINK_DEFAULTS = Ok linkMap /\
     Forall2 (fun positionLink l => push_link linkMap [] positionLink = Ok [l])
       (get_links settled) (svg_links tree)) /\
  length (svg_links tree) = length (get_links settled) /\
  length (svg_labels tree) <= length (svg_nodes tree) /\
  (ToBoolean (prop (attrs props) "showLabels") = true ->
   length (svg_labels tree) = length (svg_nodes tree)) /\
  svg_width tree = match prop (attrs props) "width" with
                   | VUndefined => VNum 900%float
                   | width => width
                   end /\
  svg_height tree = match prop (attrs props) "height" with
                    | VUndefined => VNum 600%float
                    | height => height
                    end.
Proof.
  intros rendered Hsim Hsettled Hrender.
  destruct (ForceDirectedGraph_inv rendered w w1 w' simulation settled tree
              Hsim Hsettled Hrender)
    as (nodeMap & linkMap & elements & HnodeMap & HlinkMap & Helements & Hlines
        & Hcircles & Hlabels & Hwidth & Hheight & _ & Hworld).
  rewrite (reduce_push_node rendered nodeMap
             (default default_labelOffset (labelOffset props))) in Helements by done.
  injection Helements as <-. cbn [fst snd app] in Hcircles, Hlabels.
  destruct (reduce_push_link _ _ _ _ Hlines) as (lines & Hlines' & Hdrawn).
  cbn [app] in Hlines'. subst lines.
  split; [done|]. split; [|split; [|split; [|split; [|split; [|split]]]]].
  - exists nodeMap. split; [done|]. split; [by rewrite Hcircles, length_fmap|].
    intros i positionNode Hi. eexists. split; [by rewrite Hcircles, list_lookup_fmap, Hi|].
    done.
  - by exists linkMap.
  - symmetry. by apply (Forall2_length _ _ _ Hdrawn).
  - rewrite Hcircles, Hlabels, !length_fmap.
    etrans; [apply length_filter|]. by rewrite length_fmap.
  - intros Hshow. rewrite Hcircles, Hlabels, !length_fmap.
    assert (Hall : forall l : list obj,
              filter (fun node => labelled rendered node = true) l = l).
    { intros l. induction l as [|x l IH]; [done|].
      rewrite filter_cons_True, IH; [done|].
      unfold labelled, rendered. cbn [attrs options with_defaultProps].
      rewrite resolve_defaults_prop.
      destruct (prop (attrs props) "showLabels"); try done; cbn in *; by rewrite Hshow. }
    by rewrite Hall, length_fmap.
  - rewrite Hwidth. unfold rendered. cbn [attrs options with_defaultProps].
    by rewrite resolve_defaults_prop.
  - rewrite Hheight. unfold rendered. cbn [attrs options with_defaultProps].
    by rewrite resolve_defaults_prop.
Qed.

(** A label is anchored at the hydrated node's [x] and [y], which are the
    caller's when the caller's node record holds them and the simulation's
    otherwise, while the circle is always placed at the simulation's
    position.  The anchor is shifted by the label offset: with the default
    offset, by radius / 2 + 5 to the right and 5 - radius down.  The label's
    text is the hydrated node's field named by [labelAttr], its id by
    default, and its key is the id followed by ["-label"]. *)
Theorem label_position (props : Props) (nodeMap : obj)
    (elements : list circle * list text) (positionNode : obj) :
  let rendered := with_defaultProps props in
  let node := hydrated nodeMap positionNode in
  labelled rendered node = true ->
  exists (c : circle) (t : text),
    push_node rendered nodeMap elements positionNode
      = Ok (elements.1 ++ [c], elements.2 ++ [t]) /\
    cx c = prop positionNode "x" /\ cy c = prop positionNode "y" /\
    text_key t = ToString (nodeId node) +:+ "-label" /\
    text_onClick t = Call "onClickLabel" node /\
    (forall offset : LabelOffset,
       labelOffset props = Some offset ->
       text_x t = js_add (prop node "x") (offset_x offset node) /\
       text_y t = js_add (prop node "y") (offset_y offset node)) /\
    (labelOffset props = None ->
     forall x y radius : float,
       prop node "x" = VNum x -> prop node "y" = VNum y -> prop node "radius" = VNum radius ->
       text_x t = VNum (x + (radius / 2 + 5))%float /\
       text_y t = VNum (y + (5 - radius))%float) /\
    (forall (entry : obj) (x : value),
       nodeMap !! ToString (nodeId positionNode) = Some (VObj entry) ->
       entry !! "x" = Some x -> prop node "x" = x) /\
    (forall entry : obj,
       nodeMap !! ToString (nodeId positionNode) = Some (VObj entry) ->
       entry !! "x" = None -> prop node "x" = prop positionNode "x") /\
    (prop (attrs props) "labelAttr" = VUndefined -> text_children t = prop node "id") /\
    (forall attr : string,
       prop (attrs props) "labelAttr" = VStr attr -> text_children t = prop node attr).
Proof.
  intros rendered node Hlabelled.
  set (offset := default default_labelOffset (labelOffset props)).
  exists (circle_element positionNode node), (text_element rendered offset node).
  split.
  { rewrite (push_node_ok rendered nodeMap offset) by done. fold node.
    by rewrite Hlabelled. }
  split; [done|]. split; [done|]. split; [done|]. split; [done|].
  split; [|split; [|split; [|split; [|split]]]].
  - intros given Hgiven. unfold offset. by rewrite Hgiven.
  - intros Hnone x y radius Hx Hy Hradius. unfold offset. rewrite Hnone.
    cbn [text_x text_y text_element default default_labelOffset offset_x offset_y].
    by rewrite Hx, Hy, Hradius.
  - intros entry x Hentry Hx. unfold node, hydrated.
    rewrite (prop_lookup _ _ _ Hentry). cbn [own_props].
    rewrite prop_union_l by (by eexists). by apply prop_lookup.
  - intros entry Hentry Hx. unfold node, hydrated.
    rewrite (prop_lookup _ _ _ Hentry). cbn [own_props]. by apply prop_union_r.
  - intros Hattr. cbn [text_children text_element]. unfold rendered.
    cbn [attrs options with_defaultProps]. by rewrite resolve_defaults_prop, Hattr.
  - intros attr Hattr. cbn [text_children text_element]. unfold rendered.
    cbn [attrs options with_defaultProps]. by rewrite resolve_defaults_prop, Hattr.
Qed.

End Layers.

(** ** What reaches the simulation *)

Section Passing.
Context `{Host} `{ForceLibrary}.

Lemma createSimulation_agree (o1 o2 : Options) (w : world) :
  prop (attrs o1) "width" = prop (attrs o2) "width" ->
  prop (attrs o1) "height" = prop (attrs o2) "height" ->
  prop (attrs o1) "data" = prop (attrs o2) "data" ->
  Forall (fun name => attrs o1 !! name = attrs o2 !! name) ALPHA_FACTORS ->
  chargeStrength o1 = chargeStrength o2 ->
  createSimulation o1 w = createSimulation o2 w.
Proof.
  intros Hwidth Hheight Hdata Hfactors Hcharge. rewrite !createSimulation_configured.
  assert (Hconfigured : configured o1 = configured o2).
  { unfold configured. rewrite Hwidth, Hheight, Hcharge.
    generalize (force_center (js_div (prop (attrs o2) "width") (VNum 2%float))
                  (js_div (prop (attrs o2) "height") (VNum 2%float))
                  (force_charge (force_link nodeId forceSimulation))).
    intros centred.
    assert (Htuned : apply_factors o1 ALPHA_FACTORS centred
                     = apply_factors o2 ALPHA_FACTORS centred).
    { unfold apply_factors. revert centred.
      induction Hfactors as [|name names Hname _ IH]; intros centred; [done|].
      cbn [foldl]. rewrite Hname. apply IH. }
    by rewrite Htuned. }
  by rewrite Hconfigured, Hdata.
Qed.

Lemma ForceDirectedGraph_simulated (props : Props) (w w' : world) (tree : svg) :
  ForceDirectedGraph props w = Ok (tree, w') ->
  exists (simulation : nat) (settled : Sim),
    _getSimulation props w = Ok (simulation, w') /\ sims w' !! simulation = Some settled.
Proof.
  intros Hrender. pose proof Hrender as Hcopy. unfold ForceDirectedGraph in Hcopy.
  apply M_bind_inv in Hcopy as (nodeMap & w2 & HnodeMap & Hcopy).
  apply lift_inv in HnodeMap as [_ ->].
  apply M_bind_inv in Hcopy as (linkMap & w2 & HlinkMap & Hcopy).
  apply lift_inv in HlinkMap as [_ ->].
  apply M_bind_inv in Hcopy as (simulation & w1 & Hsim & Hcopy).
  apply M_bind_inv in Hcopy as (settled & w2 & Hderef & _).
  apply deref_inv in Hderef as [Hsettled ->].
  destruct (ForceDirectedGraph_inv props w w1 w' simulation settled tree
              Hsim Hsettled Hrender) as (_ & _ & _ & _ & _ & _ & _ & _ & _ & _ & _ & _ & ->).
  by exists simulation, settled.
Qed.

(** [createSimulation] reads nothing of the options but [width], [height],
    [data], the five alpha factors and [chargeStrength]: on two options
    objects that agree on these it does the same, so [options.nodes] and
    [options.links] are never read.  The interactive component hands the
    renderer all of these as the caller gave them, in every state, and does
    not pass [opacityFactor] on: what [createSimulation] does with the
    properties of the rendered element does not depend on the node hovered
    or selected.  Without a [simulationFactory], every completed render of
    the interactive component has built one new simulation, under a fresh
    reference, and settled it with one restart, 300 ticks and one stop; no
    simulation already in the store is touched. *)
Theorem createSimulation_reads_only (w : world) :
  (forall o1 o2 : Options,
     prop (attrs o1) "width" = prop (attrs o2) "width" ->
     prop (attrs o1) "height" = prop (attrs o2) "height" ->
     prop (attrs o1) "data" = prop (attrs o2) "data" ->
     Forall (fun name => attrs o1 !! name = attrs o2 !! name) ALPHA_FACTORS ->
     chargeStrength o1 = chargeStrength o2 ->
     createSimulation o1 w = createSimulation o2 w) /\
  (forall (props : Props) (state : State),
     let rendered := with_defaultProps (render (with_interactive_defaultProps props) state) in
     createSimulation rendered w = createSimulation (with_defaultProps props) w /\
     attrs rendered !! "opacityFactor" = None /\
     simulationFactory rendered = simulationFactory props) /\
  (forall (props : Props) (state : State) (tree : svg) (w' : world),
     simulationFactory props = None ->
     view props state w = Ok (tree, w') ->
     exists s : Sim,
       sims w !! fresh (dom (sims w)) = None /\
       w' = World (<[fresh (dom (sims w)) := settle s]> (sims w))
                  (calls w ++ settle_calls (fresh (dom (sims w))))).
Proof.
  split; [intros o1 o2; apply createSimulation_agree|]. split.
  - intros props state rendered. split; [|split; [|done]].
    + assert (Hkey : forall k : string,
                k <> "opacityFactor" ->
                attrs rendered !! k = attrs (with_defaultProps props) !! k).
      { intros k Hk. unfold rendered.
        cbn [attrs options with_defaultProps render with_interactive_defaultProps].
        unfold resolve_defaults. rewrite !lookup_union_with, lookup_delete_ne by done.
        rewrite lookup_union_with.
        unfold Interactive_defaultProps. rewrite lookup_singleton_ne by done.
        by destruct (attrs props !! k). }
      apply createSimulation_agree; unfold prop; rewrite ?Hkey by done; try done.
      unfold ALPHA_FACTORS.
      repeat (apply Forall_cons_2; [by apply Hkey|]). apply Forall_nil_2.
    + unfold rendered.
      cbn [attrs options with_defaultProps render with_interactive_defaultProps].
      unfold resolve_defaults. by rewrite lookup_union_with, lookup_delete_eq.
  - intros props state tree w' Hnone Hview. unfold view in Hview.
    apply ForceDirectedGraph_simulated in Hview as (simulation & settled & Hsim & _).
    unfold _getSimulation in Hsim.
    cbn [simulationFactory with_defaultProps render with_interactive_defaultProps] in Hsim.
    rewrite Hnone in Hsim.
    apply M_bind_inv in Hsim as (created & w1 & Hcreated & Hrun).
    apply createSimulation_fresh in Hcreated as (s & -> & ->).
    rewrite (runSimulation_live _ _ s None) in Hrun by (cbn; by rewrite lookup_insert_eq).
    injection Hrun as _ <-. exists s.
    split; [apply not_elem_of_dom, is_fresh|]. cbn [sims calls].
    by rewrite insert_insert_eq.
Qed.

End Passing.

(** * The statements at the sample inputs *)

Section AtSamples.
#[local] Existing Instance constant_host.
#[local] Existing Instance still_library.

(** Three ticks on a fresh simulation of [still_library]. *)
Lemma runSimulation_three_ticks :
  sims one_simulation !! 0 = Some forceSimulation /\
  runSimulation 0 (Some 3) one_simulation =
    Ok (0, World (<[0 := stop (Nat.iter 3 tick (restart forceSimulation))]>
                    (sims one_simulation))
                 (calls one_simulation ++ [(0, Restart)] ++ replicate 3 (0, Tick)
                    ++ [(0, Stop)])).
Proof.
  split; [reflexivity|].
  apply (runSimulation_restart_ticks_stop one_simulation 0 forceSimulation (Some 3)).
  reflexivity.
Defined.

(** Two clicks on node ["a"], nothing being selected before. *)
Lemma click_twice_on_a :
  is_focus (selectedNode idle) node_a = false /\
  strict_eq (nodeId node_a) (nodeId node_a) = true /\
  (let '(state1, first) := fire sample_props (Call "onClickNode" node_a) idle in
   let '(state2, second) := fire sample_props (Call "onClickNode" node_a) state1 in
   selection_events (first ++ second)
     = [Call "onSelectNode" node_a; Call "onDeselectNode" node_a] /\
   selectedNode state2 = None).
Proof.
  split; [reflexivity|]. split; [reflexivity|].
  apply (proj1 (proj2 (proj2 (click_selects_or_deselects sample_props idle node_a))));
    reflexivity.
Defined.

(** The link of the sample graph while ["a"] is hovered: 0.5 / 4. *)
Lemma link_ab_dimmed :
  let overlay := with_interactive_defaultProps sample_props in
  links overlay !! 0 = Some link_ab /\
  focused hovering_a = true /\
  prop link_ab "opacity" = VNum 0.5%float /\
  prop (attrs overlay) "opacityFactor" = VNum 4%float /\
  exists styled : obj,
    styledLinks overlay hovering_a !! 0 = Some styled /\
    prop styled "opacity" = VNum 0.125%float.
Proof.
  intros overlay. repeat (split; [reflexivity|]).
  destruct (proj2 (link_opacity_dims_together overlay hovering_a) 0 link_ab eq_refl)
    as (styled & Hstyled & _ & Hfocused & _).
  exists styled. split; [exact Hstyled|].
  exact (proj2 (Hfocused eq_refl) 0.5%float 4%float eq_refl eq_refl).
Defined.

(** Node ["b"], which holds only its id, hydrated after node ["a"]. *)
Lemma node_b_hydrated :
  Forall (fun n => ToString (nodeId n) <> ToString (VStr "b")) [] /\
  nodeId position_b = VStr "b" /\
  exists nodeMap hydrated : obj,
    _mapItemsById [node_a; node_b] (total nodeId) NODE_DEFAULTS = Ok nodeMap /\
    _hydrateFromMap position_b (total nodeId) nodeMap = Ok hydrated /\
    hydrated !! "radius" = Some (VNum 5%float) /\
    hydrated !! "opacity" = Some (VNum 1%float) /\
    hydrated !! "color" = Some (VStr "#333") /\
    hydrated !! "stroke" = Some (VStr "#fff") /\
    hydrated !! "strokeWidth" = Some (VNum 1.5%float) /\
    hydrated !! "showLabel" = Some (VBool false).
Proof.
  split; [constructor|]. split; [reflexivity|].
  destruct (hydrate_defaults [node_a] [] (VStr "b") position_b (Forall_nil_2 _) eq_refl)
    as (nodeMap & Hmap & _ & hydrated & Hhydrated & _ & Hr & Ho & Hc & Hs & Hw & Hl & _).
  exists nodeMap, hydrated. repeat (split; [assumption|]). assumption.
Defined.

(** Two nodes of id ["a"] followed by ["b"], and two links from ["a"] to
    ["b"]: the later record is the one kept. *)
Lemma duplicates_keep_last :
  Forall (fun n => ToString (nodeId n) <> ToString (nodeId blue_a)) [node_b] /\
  Forall (fun l => exists v, linkId l = Ok v) ([thin_ab] ++ link_ab :: []) /\
  linkId link_ab = Ok (VStr "a=>b") /\
  (exists nodeMap : obj,
     _mapItemsById [red_a; blue_a; node_b] (total nodeId) NODE_DEFAULTS = Ok nodeMap /\
     nodeMap !! "a" = Some (VObj (Object_assign ∅ [VObj NODE_DEFAULTS; VObj blue_a]))) /\
  (exists linkMap : obj,
     _mapItemsById [thin_ab; link_ab] linkId LINK_DEFAULTS = Ok linkMap /\
     linkMap !! "a=>b" = Some (VObj (Object_assign ∅ [VObj LINK_DEFAULTS; VObj link_ab]))).
Proof.
  assert (Hnodes : Forall (fun n => ToString (nodeId n) <> ToString (nodeId blue_a)) [node_b])
    by (repeat constructor; discriminate).
  assert (Hlinks : Forall (fun l => exists v, linkId l = Ok v) ([thin_ab] ++ link_ab :: []))
    by (repeat constructor; eexists; reflexivity).
  split; [exact Hnodes|]. split; [exact Hlinks|]. split; [reflexivity|]. split.
  - exact (proj1 mapItemsById_last_write_wins [red_a] [node_b] blue_a Hnodes).
  - exact (proj2 mapItemsById_last_write_wins [thin_ab] [] link_ab (VStr "a=>b")
             Hlinks eq_refl (Forall_nil_2 _)).
Defined.

Lemma settled_nodes_inv (r : result (nat * world)) (simulation : nat)
    (positionNodes : list obj) :
  settled_nodes r = Some (simulation, positionNodes) ->
  exists (w1 : world) (settled : still_sim),
    r = Ok (simulation, w1) /\ sims w1 !! simulation = Some settled /\
    get_nodes settled = positionNodes.
Proof.
  unfold settled_nodes. destruct r as [[h w1]|e]; [|done].
  destruct (sims w1 !! h) as [settled|] eqn:Hsettled; [|done].
  intros [= -> <-]. by exists w1, settled.
Qed.

Lemma completed_inv {A : Type} (r : result A) : completed r = true -> exists a : A, r = Ok a.
Proof. destruct r as [a|e]; [by exists a|done]. Qed.

(** A run that returned a reference to a simulation holding [positionNodes],
    and a view that completed. *)
Lemma sample_run (simulated : result (nat * world)) (viewed : result (svg * world))
    (positionNodes : list obj) :
  settled_nodes simulated = Some (0, positionNodes) ->
  completed viewed = true ->
  exists (w1 w' : world) (settled : still_sim) (tree : svg),
    simulated = Ok (0, w1) /\
    sims w1 !! 0 = Some settled /\
    get_nodes settled = positionNodes /\
    viewed = Ok (tree, w').
Proof.
  intros Hsim Hview.
  apply settled_nodes_inv in Hsim as (w1 & settled & Hsim & Hsettled & Hget).
  apply completed_inv in Hview as [[tree w'] Hview].
  exists w1, w', settled, tree. exact (conj Hsim (conj Hsettled (conj Hget Hview))).
Qed.

(** The sample graph runs to completion under [still_library] in each of
    the sample states, and the simulation holds the two placed nodes. *)
Lemma sample_run_idle :
  exists (w1 w' : world) (settled : still_sim) (tree : svg),
    _getSimulation
      (with_defaultProps (render (with_interactive_defaultProps sample_props) idle))
      empty_world = Ok (0, w1) /\
    sims w1 !! 0 = Some settled /\
    get_nodes settled = [position_a; position_b] /\
    view sample_props idle empty_world = Ok (tree, w').
Proof. apply sample_run; vm_compute; reflexivity. Qed.

Lemma sample_run_hovering_a :
  exists (w1 w' : world) (settled : still_sim) (tree : svg),
    _getSimulation
      (with_defaultProps (render (with_interactive_defaultProps sample_props) hovering_a))
      empty_world = Ok (0, w1) /\
    sims w1 !! 0 = Some settled /\
    get_nodes settled = [position_a; position_b] /\
    view sample_props hovering_a empty_world = Ok (tree, w').
Proof. apply sample_run; vm_compute; reflexivity. Qed.

Lemma sample_run_hovering_b :
  exists (w1 w' : world) (settled : still_sim) (tree : svg),
    _getSimulation
      (with_defaultProps (render (with_interactive_defaultProps sample_props) hovering_b))
      empty_world = Ok (0, w1) /\
    sims w1 !! 0 = Some settled /\
    get_nodes settled = [position_a; position_b] /\
    view sample_props hovering_b empty_world = Ok (tree, w').
Proof. apply sample_run; vm_compute; reflexivity. Qed.

(** Node ["a"], of opacity 1, while ["b"] is hovered: drawn at 0.25. *)
Lemma node_a_dimmed_by_hover :
  prop (attrs (with_interactive_defaultProps sample_props)) "opacityFactor" = VNum 4%float /\
  prop node_a "opacity" = VNum 1%float /\
  is_focus (selectedNode hovering_b) node_a = false /\
  hoveredNode hovering_b = Some node_b /\
  strict_eq (nodeId node_b) (nodeId node_a) = false /\
  exists (tree : svg) (w' : world) (c : circle),
    view sample_props hovering_b empty_world = Ok (tree, w') /\
    svg_nodes tree !! 0 = Some c /\
    circle_opacity c = VNum 0.25%float.
Proof.
  repeat (split; [reflexivity|]).
  destruct sample_run_hovering_b
    as (w1 & w' & settled & tree & Hsim & Hsettled & Hget & Hview).
  destruct (proj2 (proj2 (proj2 (node_opacity_dimming sample_props hovering_b node_a)))
              node_b eq_refl eq_refl eq_refl eq_refl) as [_ Hrendered].
  destruct (Hrendered [] [node_b] empty_world w1 w' 0 settled tree 0 position_a eq_refl)
    as (c & Hc & Hopacity).
  - repeat constructor. discriminate.
  - exact Hsim.
  - exact Hsettled.
  - exact Hview.
  - by rewrite Hget.
  - reflexivity.
  - exists tree, w', c. exact (conj Hview (conj Hc Hopacity)).
Defined.

(** Node ["b"], which has no opacity, while nothing is focused: its circle's
    opacity is [undefined]. *)
Lemma node_b_opacity_undefined :
  node_b !! "opacity" = None /\
  focused idle = false /\
  exists (tree : svg) (w' : world) (c : circle),
    view sample_props idle empty_world = Ok (tree, w') /\
    svg_nodes tree !! 1 = Some c /\
    circle_opacity c = VUndefined.
Proof.
  split; [reflexivity|]. split; [reflexivity|].
  destruct sample_run_idle as (w1 & w' & settled & tree & Hsim & Hsettled & Hget & Hview).
  destruct (proj1 (proj2 (missing_opacity_overrides_default sample_props idle node_b eq_refl))
              eq_refl) as (_ & _ & _ & Hrendered).
  destruct (Hrendered [node_a] [] empty_world w1 w' 0 settled tree 1 position_b eq_refl)
    as (c & Hc & Hopacity).
  - constructor.
  - exact Hsim.
  - exact Hsettled.
  - exact Hview.
  - by rewrite Hget.
  - reflexivity.
  - exists tree, w', c. exact (conj Hview (conj Hc Hopacity)).
Defined.

(** The sample graph with ["a"] hovered and [showLabels] unset: one label,
    the label of ["a"]. *)
Lemma one_label_for_a :
  ToBoolean (prop (attrs sample_props) "showLabels") = false /\
  Forall (fun n => exists s : string, nodeId n = VStr s) (nodes sample_props) /\
  exists (tree : svg) (w' : world),
    view sample_props hovering_a empty_world = Ok (tree, w') /\
    text_key <$> svg_labels tree = ["a-label"].
Proof.
  assert (Hids : Forall (fun n => exists s : string, nodeId n = VStr s) (nodes sample_props))
    by (repeat constructor; eexists; reflexivity).
  split; [reflexivity|]. split; [exact Hids|].
  destruct sample_run_hovering_a
    as (w1 & w' & settled & tree & Hsim & Hsettled & Hget & Hview).
  exists tree, w'. split; [exact Hview|].
  assert (Hpos : Forall (fun positionNode =>
                           exists n : obj, n ∈ nodes sample_props /\
                                           nodeId positionNode = nodeId n)
                   (get_nodes settled)).
  { rewrite Hget. repeat constructor.
    - exists node_a. split; [by left|reflexivity].
    - exists node_b. split; [right; by left|reflexivity]. }
  destruct (proj2 labels_follow_showLabel sample_props hovering_a empty_world w1 w' 0
              settled tree eq_refl Hids Hpos Hsim Hsettled Hview) as (_ & _ & Hscenario).
  exact (Hscenario node_a node_b position_a position_b node_a
           eq_refl eq_refl eq_refl Hget eq_refl eq_refl eq_refl eq_refl eq_refl).
Defined.

(** The sample link, raw and resolved: ["a=>b"] both times. *)
Lemma linkId_ab_agrees :
  "a" <> "" /\ "b" <> "" /\
  prop link_ab "source" = VStr "a" /\ prop link_ab "target" = VStr "b" /\
  prop resolved_ab "source" = VObj position_a /\
  prop resolved_ab "target" = VObj position_b /\
  nodeId position_a = VStr "a" /\ nodeId position_b = VStr "b" /\
  linkId link_ab = Ok (VStr "a=>b") /\
  linkId resolved_ab = Ok (VStr "a=>b").
Proof.
  assert (Ha : "a" <> "") by discriminate.
  assert (Hb : "b" <> "") by discriminate.
  split; [exact Ha|]. split; [exact Hb|]. do 6 (split; [reflexivity|]).
  exact (linkId_nonempty_ids link_ab resolved_ab position_a position_b "a" "b" Ha Hb
           eq_refl eq_refl eq_refl eq_refl eq_refl eq_refl).
Defined.

(** The sample graph, passed under [data]: the library is handed the copies. *)
Lemma sample_seeds_copies :
  let data : obj := {[ "nodes" := VArr [VObj node_a; VObj node_b];
                       "links" := VArr [VObj link_ab] ]} in
  prop (attrs sample_options) "data" = VObj data /\
  Forall (fun node => nullish node = false) [VObj node_a; VObj node_b] /\
  Forall (fun link => nullish link = false) [VObj link_ab] /\
  exists (simulation : nat) (configured : still_sim),
    sims empty_world !! simulation = None /\
    createSimulation sample_options empty_world =
      match set_links (link_copy <$> [VObj link_ab])
                      (set_nodes (node_copy <$> [VObj node_a; VObj node_b]) configured) with
      | Ok seeded =>
          Ok (simulation, World (<[simulation := seeded]> (sims empty_world))
                                (calls empty_world))
      | Throw e => Throw e
      end.
Proof.
  intros data.
  assert (Hns : Forall (fun node => nullish node = false) [VObj node_a; VObj node_b])
    by (apply Forall_cons_2; [reflexivity|]; apply Forall_cons_2; [reflexivity|];
        apply Forall_nil_2).
  assert (Hls : Forall (fun link => nullish link = false) [VObj link_ab])
    by (apply Forall_cons_2; [reflexivity|]; apply Forall_nil_2).
  split; [reflexivity|]. split; [exact Hns|]. split; [exact Hls|].
  exact (createSimulation_seeds_copies sample_options empty_world data
           [VObj node_a; VObj node_b] [VObj link_ab] eq_refl eq_refl eq_refl Hns Hls).
Defined.

(** The resolved sample link, drawn with no entry in the link map. *)
Lemma resolved_ab_drawn :
  exists (drawn : list line) (l : line),
    push_link ∅ [] resolved_ab = Ok drawn /\
    drawn = [] ++ [l] /\
    line_strokeWidth l = VNum 2%float.
Proof.
  destruct (push_link ∅ [] resolved_ab) as [drawn|e] eqn:Hdrawn;
    [|vm_compute in Hdrawn; discriminate].
  destruct (link_stroke_width ∅ [] drawn resolved_ab Hdrawn)
    as (link & l & Hlink & Hl & _ & _ & _ & _ & _ & Hwidth).
  exists drawn, l. split; [reflexivity|]. split; [exact Hl|].
  apply Hwidth.
  rewrite (_hydrateFromMap_missing resolved_ab ∅ linkId (VStr "a=>b")) in Hlink;
    [|reflexivity|apply lookup_empty].
  injection Hlink as <-. reflexivity.
Defined.

(** The tuned options: alpha first, velocityDecay second, the charge
    strength last, then the copies of the sample graph. *)
Lemma tuned_simulation_configured :
  let data : obj := {[ "nodes" := VArr [VObj node_a; VObj node_b];
                       "links" := VArr [VObj link_ab] ]} in
  let centred :=
    force_center (js_div (prop (attrs tuned_options) "width") (VNum 2%float))
                 (js_div (prop (attrs tuned_options) "height") (VNum 2%float))
                 (force_charge (force_link nodeId forceSimulation)) in
  prop (attrs tuned_options) "data" = VObj data /\
  Forall (fun node => nullish node = false) [VObj node_a; VObj node_b] /\
  Forall (fun link => nullish link = false) [VObj link_ab] /\
  createSimulation tuned_options empty_world =
    match set_links (link_copy <$> [VObj link_ab])
                    (set_nodes (node_copy <$> [VObj node_a; VObj node_b])
                       (configured tuned_options)) with
    | Ok seeded =>
        Ok (fresh (dom (sims empty_world)),
            World (<[fresh (dom (sims empty_world)) := seeded]> (sims empty_world))
                  (calls empty_world))
    | Throw e => Throw e
    end /\
  configured tuned_options =
    charge_strength (fun node => prop node "radius")
      (set_factor "velocityDecay" (VNum 0.25%float)
         (set_factor "alpha" (VNum 0.5%float) centred)).
Proof.
  intros data centred.
  assert (Hns : Forall (fun node => nullish node = false) [VObj node_a; VObj node_b])
    by (apply Forall_cons_2; [reflexivity|]; apply Forall_cons_2; [reflexivity|];
        apply Forall_nil_2).
  assert (Hls : Forall (fun link => nullish link = false) [VObj link_ab])
    by (apply Forall_cons_2; [reflexivity|]; apply Forall_nil_2).
  destruct (createSimulation_configures tuned_options empty_world data
              [VObj node_a; VObj node_b] [VObj link_ab] eq_refl eq_refl eq_refl Hns Hls)
    as (Hcreate & _ & Horder).
  split; [reflexivity|]. split; [exact Hns|]. split; [exact Hls|].
  split; [exact Hcreate|].
  exact (Horder (VNum 0.5%float) (VNum 0.25%float) _
           eq_refl eq_refl eq_refl eq_refl eq_refl eq_refl).
Defined.

(** The factory's simulation, settled; the properties hold no [data]. *)
Lemma factory_simulation_settled :
  exists (w1 : world) (placed : still_sim),
    sample_factory factory_props empty_world = Ok (0, w1) /\
    sims w1 !! 0 = Some placed /\
    get_nodes placed = [still_place node_b] /\
    _getSimulation factory_props empty_world =
      Ok (0, World (<[0 := settle placed]> (sims w1)) (calls w1 ++ settle_calls 0)).
Proof.
  destruct (settled_nodes_inv (sample_factory factory_props empty_world) 0
              [still_place node_b]) as (w1 & placed & Hbuilt & Hlive & Hget);
    [vm_compute; reflexivity|].
  exists w1, placed.
  exact (conj Hbuilt (conj Hlive (conj Hget
           (proj1 (proj2 (getSimulation_settles factory_props empty_world))
              0 w1 placed Hbuilt Hlive)))).
Defined.

(** A link with no target among the links: the render raises, with a
    [simulationFactory] as well. *)
Lemma half_link_raises :
  Exists (fun link => dangling link = true) (links dangling_props) /\
  (exists msg : string,
     ForceDirectedGraph dangling_props empty_world = Throw (TypeError msg)) /\
  (exists msg : string, view dangling_props idle empty_world = Throw (TypeError msg)).
Proof.
  assert (Hex : Exists (fun link => dangling link = true) (links dangling_props))
    by (apply Exists_cons_tl, Exists_cons_hd; reflexivity).
  destruct (proj2 dangling_link_raises dangling_props empty_world Hex)
    as (_ & Hrender & Hview).
  split; [exact Hex|]. split; [exact Hrender|]. exact (Hview idle).
Defined.


(** A node with a [style] and a [showLabel] of its own, while nothing is
    focused: its id is kept, its [style] is replaced by the default one. *)
Lemma dressed_a_styled :
  "id" <> "style" /\ "id" <> "labelStyle" /\ "id" <> "showLabel" /\ "id" <> "opacity" /\
  prop dressed_a "styles" = VUndefined /\
  style_node sample_props idle dressed_a !! "id" = dressed_a !! "id" /\
  style_node sample_props idle dressed_a !! "style" = Some (VObj DEFAULT_NODE_STYLES) /\
  style_node sample_props idle (<["showLabel" := VBool false]> dressed_a) !! "showLabel"
    = style_node sample_props idle dressed_a !! "showLabel".
Proof.
  assert (H1 : "id" <> "style") by discriminate.
  assert (H2 : "id" <> "labelStyle") by discriminate.
  assert (H3 : "id" <> "showLabel") by discriminate.
  assert (H4 : "id" <> "opacity") by discriminate.
  destruct (style_node_frame sample_props idle dressed_a)
    as (Hkept & _ & _ & _ & Hdefault & Hignored).
  split; [exact H1|]. split; [exact H2|]. split; [exact H3|]. split; [exact H4|].
  split; [reflexivity|]. split; [exact (Hkept "id" H1 H2 H3 H4)|].
  split; [exact (Hdefault eq_refl)|].
  exact (Hignored "showLabel" (VBool false) (or_intror (or_intror eq_refl))).
Defined.

(** The thin link, which has neither opacity nor color, while nothing is
    focused: the entry holds [undefined] for the opacity and the default
    color. *)
Lemma thin_ab_entry :
  links thin_props = [] ++ thin_ab :: [] /\
  Forall (fun l => exists v, linkId l = Ok v) (links thin_props) /\
  linkId thin_ab = Ok (VStr "a=>b") /\
  thin_ab !! "opacity" = None /\ thin_ab !! "color" = None /\ focused idle = false /\
  exists linkMap entry : obj,
    _mapItemsById (styledLinks (with_interactive_defaultProps thin_props) idle)
      linkId LINK_DEFAULTS = Ok linkMap /\
    linkMap !! "a=>b" = Some (VObj entry) /\
    entry !! "opacity" = Some VUndefined /\
    entry !! "color" = Some (VStr "#999").
Proof.
  assert (Hall : Forall (fun l => exists v, linkId l = Ok v) (links thin_props))
    by (apply Forall_cons_2; [eexists; reflexivity|apply Forall_nil_2]).
  split; [reflexivity|]. split; [exact Hall|]. do 4 (split; [reflexivity|]).
  destruct (link_default_opacity_unused thin_props idle [] [] thin_ab (VStr "a=>b")
              eq_refl Hall eq_refl (Forall_nil_2 _) eq_refl)
    as (linkMap & entry & Hmap & Hentry & _ & Hidle & _ & Hcolor & _).
  exists linkMap, entry.
  exact (conj Hmap (conj Hentry (conj (Hidle eq_refl) (Hcolor eq_refl)))).
Defined.

(** A click on ["a"], a hover over ["b"], a click on ["b"] and a click on its
    label; and a hover followed by a leave. *)
Lemma clicks_and_hovers :
  let events := [Call "onClickNode" node_a; Call "onHoverNode" node_b;
                 Call "onClickNode" node_b; Call "onClickLabel" node_b] in
  let hovers := [Call "onHoverNode" node_a; Call "onBlurNode" node_a] in
  selectedNode (fire_all sample_props events idle).1
    = told_selection (selectedNode idle) (fire_all sample_props events idle).2 /\
  Forall (fun c => callee c <> "onClickNode" /\ callee c <> "onClickLabel") hovers /\
  selectedNode (fire_all sample_props hovers idle).1 = selectedNode idle /\
  selection_events (fire_all sample_props hovers idle).2 = [].
Proof.
  intros events hovers.
  assert (Hhovers : Forall (fun c => callee c <> "onClickNode" /\ callee c <> "onClickLabel")
                      hovers).
  { apply Forall_cons_2; [split; discriminate|].
    apply Forall_cons_2; [split; discriminate|]. apply Forall_nil_2. }
  split; [exact (proj1 (selection_tracks_callbacks sample_props events idle))|].
  split; [exact Hhovers|].
  exact (proj1 (proj2 (selection_tracks_callbacks sample_props hovers idle)) Hhovers).
Defined.

(** The label of ["a"] under the default offset: at (7.5, 0) for a node of
    radius 5 placed at the origin. *)
Lemma label_of_a_placed :
  let rendered := with_defaultProps labelled_props in
  let nodeMap : obj := {[ "a" := VObj (node_a ∪ NODE_DEFAULTS) ]} in
  labelled rendered (hydrated nodeMap position_a) = true /\
  labelOffset labelled_props = None /\
  exists (c : circle) (t : text),
    push_node rendered nodeMap ([], []) position_a = Ok ([] ++ [c], [] ++ [t]) /\
    text_x t = VNum 7.5%float /\ text_y t = VNum 0%float /\
    text_children t = VStr "a".
Proof.
  intros rendered nodeMap.
  assert (Hlab : labelled rendered (hydrated nodeMap position_a) = true)
    by (vm_compute; reflexivity).
  assert (Hx : prop (hydrated nodeMap position_a) "x" = VNum 0%float)
    by (vm_compute; reflexivity).
  assert (Hy : prop (hydrated nodeMap position_a) "y" = VNum 0%float)
    by (vm_compute; reflexivity).
  assert (Hr : prop (hydrated nodeMap position_a) "radius" = VNum 5%float)
    by (vm_compute; reflexivity).
  assert (Hid : prop (hydrated nodeMap position_a) "id" = VStr "a")
    by (vm_compute; reflexivity).
  split; [exact Hlab|]. split; [reflexivity|].
  destruct (label_position labelled_props nodeMap ([], []) position_a Hlab)
    as (c & t & Hpush & _ & _ & _ & _ & _ & Hnum & _ & _ & Hattr & _).
  exists c, t. split; [exact Hpush|].
  destruct (Hnum eq_refl 0%float 0%float 5%float Hx Hy Hr) as [Htx Hty].
  split; [exact Htx|]. split; [exact Hty|].
  exact (eq_trans (Hattr eq_refl) Hid).
Defined.

(** The sample graph through the static renderer. *)
Lemma sample_run_static :
  exists (w1 w' : world) (settled : still_sim) (tree : svg),
    _getSimulation (with_defaultProps sample_props) empty_world = Ok (0, w1) /\
    sims w1 !! 0 = Some settled /\
    get_nodes settled = [position_a; position_b] /\
    ForceDirectedGraph (with_defaultProps sample_props) empty_world = Ok (tree, w').
Proof. apply sample_run; vm_compute; reflexivity. Qed.

(** The sample graph drawn: two circles, at most two labels, 900 by 600. *)
Lemma sample_layers :
  exists (tree : svg) (w' : world),
    ForceDirectedGraph (with_defaultProps sample_props) empty_world = Ok (tree, w') /\
    length (svg_nodes tree) = 2 /\
    length (svg_labels tree) <= length (svg_nodes tree) /\
    svg_width tree = VNum 900%float /\
    svg_height tree = VNum 600%float.
Proof.
  destruct sample_run_static as (w1 & w' & settled & tree & Hsim & Hsettled & Hget & Hrender).
  destruct (render_layers sample_props empty_world w1 w' 0 settled tree
              Hsim Hsettled Hrender)
    as (_ & (nodeMap & _ & Hlength & _) & _ & _ & Hlabels & _ & Hwidth & Hheight).
  exists tree, w'. split; [exact Hrender|].
  split; [exact (eq_trans Hlength (f_equal length Hget))|].
  exact (conj Hlabels (conj Hwidth Hheight)).
Defined.

(** The sample graph while ["a"] is hovered: the renderer's simulation is
    the one of the caller's properties, and the view has built and settled
    one new simulation. *)
Lemma hovering_builds_one_simulation :
  let rendered :=
    with_defaultProps (render (with_interactive_defaultProps sample_props) hovering_a) in
  createSimulation rendered empty_world
    = createSimulation (with_defaultProps sample_props) empty_world /\
  simulationFactory sample_props = None /\
  exists (tree : svg) (w' : world) (s : still_sim),
    view sample_props hovering_a empty_world = Ok (tree, w') /\
    w' = World (<[fresh (dom (sims empty_world)) := settle s]> (sims empty_world))
               (calls empty_world ++ settle_calls (fresh (dom (sims empty_world)))).
Proof.
  intros rendered.
  destruct (createSimulation_reads_only empty_world) as (_ & Hpassed & Hbuilt).
  split; [exact (proj1 (Hpassed sample_props hovering_a))|]. split; [reflexivity|].
  destruct sample_run_hovering_a as (w1 & w' & settled & tree & _ & _ & _ & Hview).
  destruct (Hbuilt sample_props hovering_a tree w' eq_refl Hview) as (s & _ & Hworld).
  exists tree, w', s. exact (conj Hview Hworld).
Defined.

End AtSamples.
